(** * gemini-cli: tool registry, dispatcher, stream decoder and orchestrator

    A shallow embedding of [utils/tools.js] and of the command-line driver
    (callGeminiAPI / startCLI), with the properties of the written
    specification stated and settled against it.

    Conventions.
    - A JavaScript string is the list of its UTF-16 code units ([jstring]);
      [js "..."] turns an ASCII literal into one.
    - A JavaScript value that came out of [JSON.parse], or that a tool
      returns, is a [value]; objects keep their properties in insertion
      order.
    - Code that can throw returns a [completion]; state (file store,
      spawned processes, console, conversation history) is passed
      explicitly. *)

From Stdlib Require Import ZArith NArith Ascii String DecimalString.
From stdpp Require Import base list gmap.

Set Warnings "-register-all".
Local Open Scope N_scope.
Local Open Scope list_scope.

(* ===================================================================== *)
(** ** JavaScript strings *)
(* ===================================================================== *)

Module JsString.

Abbreviation jstring := (list N).

(** An ASCII literal as a sequence of code units. *)
Definition js (s : string) : jstring :=
  List.map N_of_ascii (list_ascii_of_string s).

(** The same with every apostrophe standing for a double quote, to write
    JSON text. *)
Definition jsq (s : string) : jstring :=
  List.map (fun c => if c =? 39 then 34 else c) (js s).

(** [s.startsWith(p)] *)
Fixpoint startsWith (p s : jstring) : bool :=
  match p, s with
  | [], _ => true
  | _ :: _, [] => false
  | a :: p', b :: s' => (a =? b) && startsWith p' s'
  end.

(** [s.indexOf(p)], [None] standing for -1. *)
Fixpoint indexOf (p s : jstring) : option nat :=
  if startsWith p s then Some O
  else match s with
       | [] => None
       | _ :: s' => S <$> indexOf p s'
       end.

(** [s.includes(p)] *)
Definition includes (p s : jstring) : bool :=
  match indexOf p s with Some _ => true | None => false end.

(** [s.slice(n)] for a non-negative [n], and [s.substring(0, n)]. *)
Definition slice_from (n : nat) (s : jstring) : jstring := drop n s.
Definition substring_to (n : nat) (s : jstring) : jstring := take n s.

(** WhiteSpace and LineTerminator code units, the ones [trim] strips. *)
Definition is_white_space (c : N) : bool :=
  (c =? 9) || (c =? 10) || (c =? 11) || (c =? 12) || (c =? 13) || (c =? 32)
  || (c =? 160) || (c =? 5760) || ((8192 <=? c) && (c <=? 8202))
  || (c =? 8232) || (c =? 8233) || (c =? 8239) || (c =? 8287)
  || (c =? 12288) || (c =? 65279).

Fixpoint trimStart (s : jstring) : jstring :=
  match s with
  | c :: s' => if is_white_space c then trimStart s' else s
  | [] => []
  end.

Definition trimEnd (s : jstring) : jstring := rev (trimStart (rev s)).

(** [s.trim()] *)
Definition trim (s : jstring) : jstring := trimEnd (trimStart s).

(** The scan of [s.split(sep)] for a non-empty separator: [cur] is the
    piece being collected, [skip] the number of code units of a separator
    that was just recognised and is still to be passed over. *)
Fixpoint split_go (sep s : jstring) (skip : nat) (cur : jstring)
  : list jstring :=
  match s with
  | [] => [cur]
  | c :: s' =>
      match skip with
      | S k => split_go sep s' k cur
      | O =>
          if startsWith sep s
          then cur :: split_go sep s' (length sep - 1) []
          else split_go sep s' 0 (cur ++ [c])
      end
  end.

(** [s.split(sep)]; the empty separator cuts between all code units. *)
Definition split (sep s : jstring) : list jstring :=
  match sep with
  | [] => List.map (fun c => [c]) s
  | _ :: _ => split_go sep s 0 []
  end.

(** [l.join(sep)] *)
Fixpoint join (sep : jstring) (l : list jstring) : jstring :=
  match l with
  | [] => []
  | [x] => x
  | x :: l' => x ++ sep ++ join sep l'
  end.

(** [s.padStart(n)], padding with spaces. *)
Definition padStart (n : nat) (s : jstring) : jstring :=
  replicate (n - length s) 32 ++ s.

(** [n.toString()] for an integer-valued number. *)
Definition int_toString (z : Z) : jstring :=
  js (NilEmpty.string_of_int (Z.to_int z)).

(** [GetSubstitution] of ECMA-262 for a string pattern (no capture
    groups): the replacement text in which [$$] stands for a dollar sign,
    [$&] for the matched text, [$`] for the text before the match and [$']
    for the text after it.  A dollar sign followed by anything else stays. *)
Fixpoint GetSubstitution (matched before after template : jstring)
  : jstring :=
  match template with
  | [] => []
  | 36 :: 36 :: t => 36 :: GetSubstitution matched before after t
  | 36 :: 38 :: t => matched ++ GetSubstitution matched before after t
  | 36 :: 96 :: t => before ++ GetSubstitution matched before after t
  | 36 :: 39 :: t => after ++ GetSubstitution matched before after t
  | c :: t => c :: GetSubstitution matched before after t
  end.

(** [s.replace(pattern, replacement)] with two string arguments: only the
    first occurrence is replaced. *)
Definition replace (s pattern replacement : jstring) : jstring :=
  match indexOf pattern s with
  | None => s
  | Some pos =>
      let before := take pos s in
      let after := drop (pos + length pattern) s in
      before ++ GetSubstitution pattern before after replacement ++ after
  end.

(** Surrogate code units: a leading one is followed by a trailing one in
    well-formed text. *)
Definition is_high_surrogate (c : N) : bool := (55296 <=? c) && (c <=? 56319).
Definition is_low_surrogate (c : N) : bool := (56320 <=? c) && (c <=? 57343).

(** [s.toWellFormed()]: every surrogate that is not half of a pair gives
    way to U+FFFD.  It is what a text becomes when it is written as UTF-8
    and read again. *)
Fixpoint toWellFormed (s : jstring) : jstring :=
  match s with
  | [] => []
  | c :: s' =>
      if is_high_surrogate c then
        match s' with
        | d :: s'' =>
            if is_low_surrogate d then c :: d :: toWellFormed s''
            else 65533 :: toWellFormed s'
        | [] => [65533]
        end
      else if is_low_surrogate c then 65533 :: toWellFormed s'
      else c :: toWellFormed s'
  end.

(** [a.slice(start, end)] on an array, with the clamping of ECMA-262. *)
Definition clamp_index (len i : Z) : Z :=
  if (i <? 0)%Z then Z.max (len + i) 0 else Z.min i len.

Definition array_slice {A} (l : list A) (start stop : Z) : list A :=
  let len := Z.of_nat (length l) in
  let k := clamp_index len start in
  let final := clamp_index len stop in
  take (Z.to_nat (final - k)) (drop (Z.to_nat k) l).

End JsString.
Import JsString.

(* ===================================================================== *)
(** ** JavaScript values and completions *)
(* ===================================================================== *)

Module Json.

Inductive value : Type :=
| VUndefined
| VNull
| VBool (b : bool)
| VNumber (m e : Z)          (* the decimal m * 10^e, as written *)
| VString (s : jstring)
| VArray (items : list value)
| VObject (props : list (jstring * value)).

(** Exceptions, by what raised them. *)
Inductive exn : Type :=
| SyntaxError (text : jstring)            (* JSON.parse rejected [text] *)
| TypeError_read (target : value) (key : jstring)
                                          (* property read on null/undefined *)
| TypeError_not_callable (key : jstring)  (* call of a non-function *)
| TypeError_destructure (target : value)  (* pattern on null/undefined *)
| TypeError_chunk (chunk : value)         (* stream write of a non-string *)
| TypeError_convert (target : value)      (* object without a primitive value *)
| ERR_INVALID_ARG_VALUE (argument : jstring)
                                          (* Node: an argument it refuses *)
| ERR_OUT_OF_RANGE (argument : jstring) (received : Z)
                                          (* Node: a number out of range *)
| Error (message : jstring)               (* new Error(message) *)
| HostError (message : jstring).          (* rejection coming from the host *)

Inductive completion (A : Type) : Type :=
| Normal (a : A)
| Throw (e : exn).
Arguments Normal {A} a.
Arguments Throw {A} e.

Definition bind {A B} (c : completion A) (k : A -> completion B)
  : completion B :=
  match c with
  | Normal a => k a
  | Throw e => Throw e
  end.

(** A number literal denotes zero as a double when its mantissa is zero or
    when it is so small that it rounds to zero (at most 2^-1075). *)
Definition number_is_zero (m e : Z) : bool :=
  (m =? 0)%Z || ((e <? 0)%Z && (Z.abs m * 2 ^ 1075 <=? 10 ^ (- e))%Z).

(** ToBoolean *)
Definition truthy (v : value) : bool :=
  match v with
  | VUndefined | VNull => false
  | VBool b => b
  | VNumber m e => negb (number_is_zero m e)
  | VString s => match s with [] => false | _ => true end
  | VArray _ | VObject _ => true
  end.

Definition is_digit (c : N) : bool := (48 <=? c) && (c <=? 57).

Definition digits_to_Z (d : jstring) : Z :=
  fold_left (fun acc c => (acc * 10 + Z.of_N (c - 48))%Z) d 0%Z.

(** A property key that is a canonical array index. *)
Definition array_index (k : jstring) : option nat :=
  match k with
  | [] => None
  | [48] => Some O
  | 48 :: _ => None
  | _ => if forallb is_digit k then Some (Z.to_nat (digits_to_Z k)) else None
  end.

(** The last binding of a key is the one an object holds. *)
Fixpoint own_property (props : list (jstring * value)) (k : jstring)
  : option value :=
  match props with
  | [] => None
  | (k', v) :: rest =>
      match own_property rest k with
      | Some v' => Some v'
      | None => if decide (k' = k) then Some v else None
      end
  end.

(** [v[k]] and [v.k].  Only own properties are modelled: the keys the
    program reads (choices, delta, content, message, function_call, name,
    arguments, detail, api_initialized and the index 0) are on no built-in
    prototype. *)
Definition get (v : value) (k : jstring) : completion value :=
  match v with
  | VUndefined | VNull => Throw (TypeError_read v k)
  | VBool _ | VNumber _ _ => Normal VUndefined
  | VString s =>
      if decide (k = js "length") then Normal (VNumber (Z.of_nat (length s)) 0)
      else match array_index k with
           | Some i => match s !! i with
                       | Some c => Normal (VString [c])
                       | None => Normal VUndefined
                       end
           | None => Normal VUndefined
           end
  | VArray items =>
      if decide (k = js "length")
      then Normal (VNumber (Z.of_nat (length items)) 0)
      else match array_index k with
           | Some i => Normal (default VUndefined (items !! i))
           | None => Normal VUndefined
           end
  | VObject props => Normal (default VUndefined (own_property props k))
  end.

(** *** JSON.parse *)

Inductive parse_result (A : Type) : Type :=
| Parsed (a : A) (rest : jstring)
| Invalid
| OutOfFuel.
Arguments Parsed {A} a rest.
Arguments Invalid {A}.
Arguments OutOfFuel {A}.

Fixpoint skip_ws (s : jstring) : jstring :=
  match s with
  | c :: s' =>
      if (c =? 32) || (c =? 9) || (c =? 10) || (c =? 13) then skip_ws s' else s
  | [] => []
  end.

Definition hex_digit (c : N) : option N :=
  if (48 <=? c) && (c <=? 57) then Some (c - 48)
  else if (65 <=? c) && (c <=? 70) then Some (c - 55)
  else if (97 <=? c) && (c <=? 102) then Some (c - 87)
  else None.

Definition hex4 (a b c d : N) : option N :=
  match hex_digit a, hex_digit b, hex_digit c, hex_digit d with
  | Some a, Some b, Some c, Some d => Some (((a * 16 + b) * 16 + c) * 16 + d)
  | _, _, _, _ => None
  end.

(** The characters of a string literal after its opening quote. *)
Fixpoint parse_string_body (s acc : jstring) : option (jstring * jstring) :=
  match s with
  | [] => None
  | 34 :: r => Some (acc, r)
  | 92 :: r =>
      match r with
      | 34 :: r' => parse_string_body r' (acc ++ [34])
      | 92 :: r' => parse_string_body r' (acc ++ [92])
      | 47 :: r' => parse_string_body r' (acc ++ [47])
      | 98 :: r' => parse_string_body r' (acc ++ [8])
      | 102 :: r' => parse_string_body r' (acc ++ [12])
      | 110 :: r' => parse_string_body r' (acc ++ [10])
      | 114 :: r' => parse_string_body r' (acc ++ [13])
      | 116 :: r' => parse_string_body r' (acc ++ [9])
      | 117 :: a :: b :: c :: d :: r' =>
          match hex4 a b c d with
          | Some u => parse_string_body r' (acc ++ [u])
          | None => None
          end
      | _ => None
      end
  | c :: r => if c <? 32 then None else parse_string_body r (acc ++ [c])
  end.

Fixpoint span_digits (s : jstring) : jstring * jstring :=
  match s with
  | c :: r =>
      if is_digit c then let '(d, r') := span_digits r in (c :: d, r')
      else ([], s)
  | [] => ([], [])
  end.

Definition parse_fraction (s : jstring) : option (jstring * jstring) :=
  match s with
  | 46 :: r =>
      match span_digits r with
      | ([], _) => None
      | (d, r') => Some (d, r')
      end
  | _ => Some ([], s)
  end.

Definition parse_exponent (s : jstring) : option (Z * jstring) :=
  match s with
  | 101 :: r | 69 :: r =>
      let '(neg, r1) :=
        match r with
        | 45 :: r1 => (true, r1)
        | 43 :: r1 => (false, r1)
        | _ => (false, r)
        end in
      match span_digits r1 with
      | ([], _) => None
      | (d, r') => Some (if neg then (- digits_to_Z d)%Z else digits_to_Z d, r')
      end
  | _ => Some (0%Z, s)
  end.

Definition parse_number (s : jstring) : option (value * jstring) :=
  let '(neg, s1) :=
    match s with
    | 45 :: r => (true, r)
    | _ => (false, s)
    end in
  match span_digits s1 with
  | ([], _) => None
  | (48 :: _ :: _, _) => None
  | (int, s2) =>
      match parse_fraction s2 with
      | None => None
      | Some (frac, s3) =>
          match parse_exponent s3 with
          | None => None
          | Some (ex, s4) =>
              let m := digits_to_Z (int ++ frac) in
              Some (VNumber (if neg then (- m)%Z else m)
                            (ex - Z.of_nat (length frac)), s4)
          end
      end
  end.

Definition parse_literal (s : jstring) : option (value * jstring) :=
  if startsWith (js "true") s then Some (VBool true, drop 4 s)
  else if startsWith (js "false") s then Some (VBool false, drop 5 s)
  else if startsWith (js "null") s then Some (VNull, drop 4 s)
  else parse_number s.

Fixpoint parse_value (fuel : nat) (s : jstring) : parse_result value :=
  match fuel with
  | O => OutOfFuel
  | S fuel' =>
      match skip_ws s with
      | 123 :: r =>
          match skip_ws r with
          | 125 :: r' => Parsed (VObject []) r'
          | r' => parse_members fuel' r' []
          end
      | 91 :: r =>
          match skip_ws r with
          | 93 :: r' => Parsed (VArray []) r'
          | r' => parse_elements fuel' r' []
          end
      | 34 :: r =>
          match parse_string_body r [] with
          | Some (str, r') => Parsed (VString str) r'
          | None => Invalid
          end
      | s' =>
          match parse_literal s' with
          | Some (v, r') => Parsed v r'
          | None => Invalid
          end
      end
  end
with parse_elements (fuel : nat) (s : jstring) (acc : list value)
  : parse_result value :=
  match fuel with
  | O => OutOfFuel
  | S fuel' =>
      match parse_value fuel' s with
      | Parsed v r =>
          match skip_ws r with
          | 44 :: r' => parse_elements fuel' r' (acc ++ [v])
          | 93 :: r' => Parsed (VArray (acc ++ [v])) r'
          | _ => Invalid
          end
      | Invalid => Invalid
      | OutOfFuel => OutOfFuel
      end
  end
with parse_members (fuel : nat) (s : jstring) (acc : list (jstring * value))
  : parse_result value :=
  match fuel with
  | O => OutOfFuel
  | S fuel' =>
      match skip_ws s with
      | 34 :: r =>
          match parse_string_body r [] with
          | Some (key, r1) =>
              match skip_ws r1 with
              | 58 :: r2 =>
                  match parse_value fuel' r2 with
                  | Parsed v r3 =>
                      match skip_ws r3 with
                      | 44 :: r4 => parse_members fuel' r4 (acc ++ [(key, v)])
                      | 125 :: r4 => Parsed (VObject (acc ++ [(key, v)])) r4
                      | _ => Invalid
                      end
                  | Invalid => Invalid
                  | OutOfFuel => OutOfFuel
                  end
              | _ => Invalid
              end
          | None => Invalid
          end
      | _ => Invalid
      end
  end.

(** Fuel that no text exhausts (see [parse_value_fuel]). *)
Definition parse_fuel (s : jstring) : nat := 2 * length s + 2.

(** [JSON.parse(text)] *)
Definition JSON_parse (text : jstring) : completion value :=
  match parse_value (parse_fuel text) text with
  | Parsed v rest =>
      match skip_ws rest with
      | [] => Normal v
      | _ :: _ => Throw (SyntaxError text)
      end
  | Invalid | OutOfFuel => Throw (SyntaxError text)
  end.

End Json.
Import Json.

(* ===================================================================== *)
(** ** The host: file store, subprocesses, engine texts *)
(* ===================================================================== *)

Module Host.

Inductive fs_node : Type :=
| File (content : jstring)
| Directory.

(** What tools can observe and change: the file store, by absolute path,
    and the commands handed to a shell so far.  The store is an ideal one:
    a regular file can always be read and written. *)
Record World : Type := mkWorld {
  fs : gmap (list N) fs_node;
  spawned : list jstring
}.

(** [fs.existsSync(p)] *)
Definition existsSync (p : jstring) (w : World) : bool :=
  match fs w !! p with Some _ => true | None => false end.

(** [readFile(p, 'utf8')] *)
Definition readFileAsync (p : jstring) (w : World) : completion jstring :=
  match fs w !! p with
  | Some (File content) => Normal content
  | Some Directory =>
      Throw (HostError (js "EISDIR: illegal operation on a directory, read"))
  | None =>
      Throw (HostError (js "ENOENT: no such file or directory, open '"
                        ++ p ++ js "'"))
  end.

(** [writeFile(p, content, 'utf8')] onto a path that is not a directory.
    The file holds the UTF-8 encoding of the content, in which a surrogate
    outside a pair is written as U+FFFD: read again, the text is
    [toWellFormed content]. *)
Definition writeFileAsync (p content : jstring) (w : World)
  : completion World :=
  match fs w !! p with
  | Some Directory =>
      Throw (HostError (js "EISDIR: illegal operation on a directory, open '"
                        ++ p ++ js "'"))
  | _ =>
      Normal (mkWorld (<[p := File (toWellFormed content)]> (fs w))
                      (spawned w))
  end.

(** What the surrounding system supplies. *)
Record host : Type := mkHost {
  (** [path.resolve] *)
  path_resolve : jstring -> jstring;
  (** what a shell does with a command under a timeout: its standard
      output or a failure, and the file store it leaves *)
  run_shell : jstring -> Z -> gmap (list N) fs_node
              -> completion jstring * gmap (list N) fs_node;
  (** the engine's text for the errors it raises itself *)
  engine_message : exn -> jstring;
  (** [Number.prototype.toString] of the decimal m * 10^e *)
  Number_toString : Z -> Z -> jstring;
  (** [JSON.stringify(v)] and [JSON.stringify(v, null, 2)] *)
  JSON_stringify : value -> bool -> value;
  (** a registered tool applied to arguments outside the types its
      parameters document, and the tools no property here is about *)
  untyped_tool : jstring -> value -> World -> completion value * World;
  (** a method inherited from [Object.prototype] called on the registry *)
  object_prototype_call : jstring -> value -> completion value;
  (** [path.join] and [fs.readdirSync] *)
  path_join : jstring -> jstring -> jstring;
  readdirSync : jstring -> gmap (list N) fs_node -> list jstring
}.

(** [execSync(command, {timeout, ...})]: the one place a subprocess is
    spawned.  Node checks its arguments first and starts no shell for an
    empty command or a negative timeout. *)
Definition execSync (h : host) (command : jstring) (timeout : Z) (w : World)
  : completion jstring * World :=
  match command with
  | [] => (Throw (ERR_INVALID_ARG_VALUE (js "file")), w)
  | _ :: _ =>
      if (timeout <? 0)%Z
      then (Throw (ERR_OUT_OF_RANGE (js "timeout") timeout), w)
      else
        let '(r, fs') := run_shell h command timeout (fs w) in
        (r, mkWorld fs' (spawned w ++ [command]))
  end.

(** [error.message] *)
Definition message_of (h : host) (e : exn) : jstring :=
  match e with
  | Error m | HostError m => m
  | _ => engine_message h e
  end.

(** The values ToPrimitive fails on.  An object that came out of
    [JSON.parse] holds no function: when it has a property [toString] of
    its own, that one is found and passed over as not callable, and
    [valueOf], own or inherited, gives no primitive value either.  An
    array is joined, which converts its elements. *)
Fixpoint not_convertible (v : value) : bool :=
  match v with
  | VObject props =>
      match own_property props (js "toString") with
      | Some _ => true
      | None => false
      end
  | VArray items => existsb not_convertible items
  | _ => false
  end.

(** The text of a value that converts: [Object.prototype.toString] for
    an object, [Array.prototype.join] for an array. *)
Fixpoint text_of (h : host) (v : value) : jstring :=
  match v with
  | VUndefined => js "undefined"
  | VNull => js "null"
  | VBool true => js "true"
  | VBool false => js "false"
  | VNumber m e => Number_toString h m e
  | VString s => s
  | VArray items =>
      join [44] (List.map (fun x => match x with
                                    | VUndefined | VNull => []
                                    | _ => text_of h x
                                    end) items)
  | VObject _ => js "[object Object]"
  end.

(** ToString, as template literals and property keys apply it. *)
Definition ToString (h : host) (v : value) : completion jstring :=
  if not_convertible v then Throw (TypeError_convert v)
  else Normal (text_of h v).

End Host.
Import Host.

(* ===================================================================== *)
(** ** utils/tools.js: the tool implementations *)
(* ===================================================================== *)

Module Tools.

(** The result object [{ error: message }]. *)
Definition error_result (m : jstring) : value :=
  VObject [(js "error", VString m)].

Section Implementations.
Variable h : host.

(** [read_file({ file_path, offset = 0, limit = 2000 })].  The offset
    and the limit are integers that a double holds exactly, at most 2^53
    either way: [call_tool] passes no others.  For these the line numbers
    are sums that a double holds exactly too, and a sum [offset + limit]
    that a double would round lies beyond the end of every array. *)
Definition read_file (file_path : jstring) (offset limit : option Z)
    (w : World) : value :=
  let offset := default 0%Z offset in
  let limit := default 2000%Z limit in
  let absolutePath := path_resolve h file_path in
  if negb (existsSync absolutePath w)
  then error_result (js "File not found: " ++ file_path)
  else
    match readFileAsync absolutePath w with
    | Throw e => error_result (js "Error reading file: " ++ message_of h e)
    | Normal content =>
        let lines := split [10] content in
        let selectedLines := array_slice lines offset (offset + limit)%Z in
        let numberedLines :=
          join [10]
            (imap (fun i line =>
                     padStart 6 (int_toString (Z.of_nat i + offset + 1)%Z)
                     ++ js "  " ++ line)
                  selectedLines) in
        VObject [ (js "content", VString numberedLines);
                  (js "total_lines", VNumber (Z.of_nat (length lines)) 0);
                  (js "displayed_lines",
                   VNumber (Z.of_nat (length selectedLines)) 0) ]
    end.

(** [edit_file({ file_path, old_string, new_string })] *)
Definition edit_file (file_path old_string new_string : jstring) (w : World)
  : value * World :=
  let absolutePath := path_resolve h file_path in
  if negb (existsSync absolutePath w)
  then (error_result (js "File not found: " ++ file_path), w)
  else
    match readFileAsync absolutePath w with
    | Throw e => (error_result (js "Error editing file: " ++ message_of h e), w)
    | Normal content =>
        if negb (includes old_string content)
        then (error_result
                (js "Text not found in file: "
                 ++ substring_to 50 old_string
                 ++ (if (50 <? length old_string)%nat then js "..." else [])),
              w)
        else
          let newContent := replace content old_string new_string in
          match writeFileAsync absolutePath newContent w with
          | Throw e =>
              (error_result (js "Error editing file: " ++ message_of h e), w)
          | Normal w' =>
              (VObject [ (js "success", VBool true);
                         (js "message",
                          VString (js "File edited successfully: "
                                   ++ file_path));
                         (js "replacements", VNumber 1 0) ],
               w')
          end
    end.

(** The list of forbidden commands. *)
Definition forbiddenCommands : list jstring :=
  [ js "rm -rf"; js "sudo"; js "chmod 777";
    js "mkfs"; js "dd if=/dev/zero";
    js ":(){ :|:& };:" ].

(** The loop over the forbidden commands: the first one the command
    includes, if any. *)
Fixpoint first_forbidden (forbidden : list jstring) (command : jstring)
  : option jstring :=
  match forbidden with
  | [] => None
  | f :: rest =>
      if includes f command then Some f else first_forbidden rest command
  end.

(** [execute_command({ command, timeout = 60000 })] *)
Definition execute_command (command : jstring) (timeout : option Z)
    (w : World) : value * World :=
  let timeout := default 60000%Z timeout in
  match first_forbidden forbiddenCommands command with
  | Some _ =>
      (error_result
         (js "Command not allowed for security reasons: " ++ command), w)
  | None =>
      match execSync h command timeout w with
      | (Normal result, w') =>
          (VObject [ (js "output", VString (trim result));
                     (js "command", VString command) ], w')
      | (Throw e, w') =>
          (VObject [ (js "error",
                      VString (js "Command execution failed: "
                               ++ message_of h e));
                     (js "command", VString command) ], w')
      end
  end.

End Implementations.
End Tools.
Import Tools.

(* ===================================================================== *)
(** ** utils/tools.js: the registry and processToolCall *)
(* ===================================================================== *)

Module Dispatcher.

(** The own keys of [toolImplementations]. *)
Definition tool_names : list jstring :=
  [ js "read_file"; js "write_file"; js "edit_file";
    js "list_directory"; js "search_code"; js "execute_command" ].

(** The keys every object literal inherits from [Object.prototype]. *)
Definition object_prototype_names : list jstring :=
  [ js "constructor"; js "__defineGetter__"; js "__defineSetter__";
    js "hasOwnProperty"; js "__lookupGetter__"; js "__lookupSetter__";
    js "isPrototypeOf"; js "propertyIsEnumerable"; js "toString";
    js "valueOf"; js "__proto__"; js "toLocaleString" ].

Inductive member : Type :=
| Tool (name : jstring)
| Inherited (key : jstring).

(** [toolImplementations[key]]; [None] is [undefined]. *)
Definition toolImplementations_get (key : jstring) : option member :=
  if decide (key ∈ tool_names) then Some (Tool key)
  else if decide (key ∈ object_prototype_names) then Some (Inherited key)
  else None.

(** A property of a destructured argument record. *)
Definition prop (args : value) (k : jstring) : value :=
  match get args k with
  | Normal v => v
  | Throw _ => VUndefined
  end.

Definition as_string (v : value) : option jstring :=
  match v with
  | VString s => Some s
  | _ => None
  end.

(** The integer a number literal denotes, when it is one that a double
    holds exactly. *)
Definition integer_value (m e : Z) : option Z :=
  let z :=
    if (0 <=? e)%Z then Some (m * 10 ^ e)%Z
    else if (m mod 10 ^ (- e) =? 0)%Z then Some (m / 10 ^ (- e))%Z
    else None in
  match z with
  | Some z => if (Z.abs z <=? 2 ^ 53)%Z then Some z else None
  | None => None
  end.

(** An optional integer parameter: absent, or an integer. *)
Definition as_optional_integer (v : value) : option (option Z) :=
  match v with
  | VUndefined => Some None
  | VNumber m e => Some <$> integer_value m e
  | _ => None
  end.

Section Dispatch.
Variable h : host.

(** [toolImplementations[name](parsedArgs)] for a registered tool: the
    parameter pattern throws on null and undefined; arguments of the
    documented types reach the implementations above. *)
Definition call_tool (name : jstring) (args : value) (w : World)
  : completion value * World :=
  match args with
  | VUndefined | VNull => (Throw (TypeError_destructure args), w)
  | _ =>
      if decide (name = js "read_file") then
        match as_string (prop args (js "file_path")),
              as_optional_integer (prop args (js "offset")),
              as_optional_integer (prop args (js "limit")) with
        | Some file_path, Some offset, Some limit =>
            (Normal (read_file h file_path offset limit w), w)
        | _, _, _ => untyped_tool h name args w
        end
      else if decide (name = js "edit_file") then
        match as_string (prop args (js "file_path")),
              as_string (prop args (js "old_string")),
              as_string (prop args (js "new_string")) with
        | Some file_path, Some old_string, Some new_string =>
            let '(r, w') := edit_file h file_path old_string new_string w in
            (Normal r, w')
        | _, _, _ => untyped_tool h name args w
        end
      else if decide (name = js "execute_command") then
        match as_string (prop args (js "command")),
              as_optional_integer (prop args (js "timeout")) with
        | Some command, Some timeout =>
            let '(r, w') := execute_command h command timeout w in
            (Normal r, w')
        | _, _ => untyped_tool h name args w
        end
      else untyped_tool h name args w
  end.

(** The call of whatever the lookup found. *)
Definition call_member (m : member) (args : value) (w : World)
  : completion value * World :=
  match m with
  | Tool name => call_tool name args w
  | Inherited key =>
      if decide (key = js "__proto__")
      then (Throw (TypeError_not_callable key), w)
      else (object_prototype_call h key args, w)
  end.

(** [processToolCall({ function: { name, arguments: args } })] *)
Definition processToolCall (name args : value) (w : World)
  : completion value * World :=
  match (match args with
         | VString text => JSON_parse text
         | _ => Normal args
         end) with
  | Throw e => (Throw e, w)
  | Normal parsedArgs =>
      (* the property key of [toolImplementations[name]], outside the try *)
      match ToString h name with
      | Throw e => (Throw e, w)
      | Normal key =>
          match toolImplementations_get key with
          | Some m =>
              match call_member m parsedArgs w with
              | (Normal r, w') => (Normal r, w')
              | (Throw error, w') =>
                  (Normal (error_result (js "Tool execution error: "
                                         ++ message_of h error)), w')
              end
          | None => (Normal (error_result (js "Unknown tool: " ++ key)), w)
          end
      end
  end.

End Dispatch.
End Dispatcher.
Import Dispatcher.

(* ===================================================================== *)
(** ** The driver: stream decoding inside callGeminiAPI *)
(* ===================================================================== *)

Module Decoder.

(** One [reader.read()] that delivered a value: the text the TextDecoder
    made of it, or a rejection.  The end of the list is [{ done: true }].
    In streaming mode the TextDecoder holds back an incomplete multi-byte
    sequence, so the texts of the reads concatenate to the text of the
    stream. *)
Inductive read_result : Type :=
| ReadValue (decodedChunk : jstring)
| ReadRejected (e : exn).

(** The body of the inner [try]: the text to write and append, if any.
    [process.stdout.write] throws on a chunk that is not a string, before
    anything is appended. *)
Definition delta_content (data : jstring) : completion (option jstring) :=
  bind (JSON_parse data) (fun parsed =>
  bind (get parsed (js "choices")) (fun choices =>
  if truthy choices then
    bind (get choices (js "0")) (fun choice =>
    bind (get choice (js "delta")) (fun delta =>
    bind (get delta (js "content")) (fun content =>
    if truthy content then
      match content with
      | VString text => Normal (Some text)
      | _ => Throw (TypeError_chunk content)   (* process.stdout.write *)
      end
    else Normal None)))
  else Normal None)).

(** One iteration of [for (const line of lines)]: the writes so far and
    [fullContent]. *)
Definition decode_line (acc : list jstring * jstring) (line : jstring)
  : list jstring * jstring :=
  if startsWith (js "data:") line then
    let data := trim (slice_from 5 line) in
    if decide (data = js "[DONE]") then acc
    else
      match delta_content data with
      | Normal (Some content) => (acc.1 ++ [content], acc.2 ++ content)
      | Normal None => acc
      | Throw _ => acc                         (* Skip non-JSON data *)
      end
  else acc.

(** The handling of one decoded chunk. *)
Definition decode_chunk (acc : list jstring * jstring) (decodedChunk : jstring)
  : list jstring * jstring :=
  fold_left decode_line (split [10; 10] decodedChunk) acc.

(** The [while (!done)] loop: what was written to standard output, and
    [fullContent] or the rejection that ended the loop. *)
Fixpoint read_loop (reads : list read_result) (acc : list jstring * jstring)
  : list jstring * completion jstring :=
  match reads with
  | [] => (acc.1, Normal acc.2)
  | ReadValue decodedChunk :: rest =>
      read_loop rest (decode_chunk acc decodedChunk)
  | ReadRejected e :: _ => (acc.1, Throw e)
  end.

(** The decoder on a stream that arrives as the given chunks. *)
Definition decode (chunks : list jstring) : list jstring * completion jstring :=
  read_loop (ReadValue <$> chunks) ([], []).

End Decoder.
Import Decoder.

(* ===================================================================== *)
(** ** The driver: callGeminiAPI and startCLI *)
(* ===================================================================== *)

Module Orchestrator.

Inductive role : Type := user | assistant | function.

(** An element of the [messages] array. *)
Record message : Type := mkMessage {
  msg_role : role;
  msg_content : value;
  msg_function_call : option value;
  msg_name : option value
}.

Inductive color : Type := red | blue | cyan | yellow.

Inductive output : Type :=
| Logo
| Prompt
| StdoutWrite (text : jstring)
| ConsoleLog (style : option color) (v : value)
| ConsoleError (style : option color) (text : jstring).

(** What [fetch] was called with: the messages as they stood, and the
    [stream] flag. *)
Record request : Type := mkRequest {
  req_messages : list message;
  req_stream : bool
}.

(** [response.body].  The program takes [fetch] from the node-fetch
    package, whose body is a Node.js stream: it has no [getReader].  A
    body that has one delivers its reads. *)
Inductive body_stream : Type :=
| NodeStream
| ReadableStream (reads : list read_result).

Record response : Type := mkResponse {
  ok : bool;
  statusText : jstring;
  json : completion value;               (* what response.json() settles to *)
  body : option body_stream              (* response.body; None is null *)
}.

Inductive fetch_result : Type :=
| FetchRejected (e : exn)
| FetchResponse (r : response).

Record argv : Type := mkArgv {
  argv_model : jstring;
  argv_stream : bool;
  argv_file : option jstring;
  PROXY_URL : jstring
}.

(** The [messages] array (one object, shared with the caller), the world
    of the tools, the terminal, and the calls made to the remote end. *)
Record state : Type := mkState {
  messages : list message;
  world : World;
  console : list output;
  requests : list request
}.

Definition push (m : message) (st : state) : state :=
  mkState (messages st ++ [m]) (world st) (console st) (requests st).

Definition print (o : list output) (st : state) : state :=
  mkState (messages st) (world st) (console st ++ o) (requests st).

Definition with_world (w : World) (st : state) : state :=
  mkState (messages st) w (console st) (requests st).

Definition with_messages (ms : list message) (st : state) : state :=
  mkState ms (world st) (console st) (requests st).

Definition sent (stream : bool) (st : state) : state :=
  mkState (messages st) (world st) (console st)
          (requests st ++ [mkRequest (messages st) stream]).

(** What a call of [callGeminiAPI] comes to: the value it resolves to, or
    nothing yet because the remote end has not answered. *)
Inductive answer : Type :=
| Answered (v : value)
| Awaiting.

Section Driver.
Variable h : host.
Variable args : argv.

(** The error of
    [throw new Error(`API Error: ${errorData.detail || response.statusText}`)] *)
Definition api_error (r : response) : exn :=
  match bind (json r) (fun errorData => get errorData (js "detail")) with
  | Throw e => e
  | Normal detail =>
      if truthy detail then
        match ToString h detail with
        | Throw e => e
        | Normal text => Error (js "API Error: " ++ text)
        end
      else Error (js "API Error: " ++ statusText r)
  end.

(** [data.choices && data.choices[0].message &&
     data.choices[0].message.function_call] *)
Definition function_call_of (data : value) : completion value :=
  bind (get data (js "choices")) (fun choices =>
  if truthy choices then
    bind (get choices (js "0")) (fun choice =>
    bind (get choice (js "message")) (fun message =>
    if truthy message then get message (js "function_call")
    else Normal message))
  else Normal choices).

(** [data.choices[0].message.content] *)
Definition message_content (data : value) : completion value :=
  bind (get data (js "choices")) (fun choices =>
  bind (get choices (js "0")) (fun choice =>
  bind (get choice (js "message")) (fun message =>
  get message (js "content")))).

(** The two messages pushed after a tool ran. *)
Definition tool_call_message (content functionCall : value) : message :=
  mkMessage assistant content (Some functionCall) None.

Definition tool_result_message (functionCall toolResult : value) : message :=
  mkMessage function (JSON_stringify h toolResult false) None
            (Some (prop functionCall (js "name"))).

(** [callGeminiAPI(messages, options)].  [script] is what the remote end
    answers to the calls still to come, [stream_option] the [stream] key of
    [options] when it has one. *)
Fixpoint callGeminiAPI (script : list fetch_result)
    (stream_option : option bool) (st : state)
  : answer * state * list fetch_result :=
  let stream := default (argv_stream args) stream_option in
  let st := sent stream st in
  match script with
  | [] => (Awaiting, st, [])
  | reply :: script' =>
      let '(r, st', rest) :=
        match reply with
        | FetchRejected e => (Throw e, st, script')
        | FetchResponse response =>
            if negb (ok response) then (Throw (api_error response), st, script')
            else if stream then
              match body response with
              | None =>
                  (Throw (Error (js "No response body received for streaming")),
                   st, script')
              | Some NodeStream =>
                  (* response.body.getReader is not a function *)
                  (Throw (TypeError_not_callable
                            (js "response.body.getReader")),
                   st, script')
              | Some (ReadableStream reads) =>
                  let '(written, fullContent) := read_loop reads ([], []) in
                  let st := print (StdoutWrite <$> written) st in
                  match fullContent with
                  | Normal text =>
                      (Normal (Answered (VString text)),
                       print [ConsoleLog None (VString [10])] st, script')
                  | Throw e => (Throw e, st, script')
                  end
              end
            else
              match json response with
              | Throw e => (Throw e, st, script')
              | Normal data =>
                  match function_call_of data with
                  | Throw e => (Throw e, st, script')
                  | Normal functionCall =>
                      if truthy functionCall then
                        let name := prop functionCall (js "name") in
                        (* `Function call: ${functionCall.name}` *)
                        match ToString h name with
                        | Throw e => (Throw e, st, script')
                        | Normal text =>
                        let st :=
                          print [ConsoleLog (Some blue)
                                   (VString (js "Function call: " ++ text))]
                                st in
                        match processToolCall h name
                                (prop functionCall (js "arguments"))
                                (world st) with
                        | (Throw e, w) => (Throw e, with_world w st, script')
                        | (Normal toolResult, w) =>
                            let st := with_world w st in
                            let st :=
                              print [ConsoleLog (Some cyan)
                                       (VString (js "Tool result:"));
                                     ConsoleLog None
                                       (JSON_stringify h toolResult true)] st in
                            match message_content data with
                            | Throw e => (Throw e, st, script')
                            | Normal content =>
                                let st :=
                                  push (tool_call_message content functionCall)
                                       st in
                                let st :=
                                  push (tool_result_message functionCall
                                                            toolResult) st in
                                let '(a, st, rest) :=
                                  callGeminiAPI script' (Some false) st in
                                (Normal a, st, rest)
                            end
                        end
                        end
                      else
                        match message_content data with
                        | Throw e => (Throw e, st, script')
                        | Normal content =>
                            (Normal (Answered content),
                             print [ConsoleLog None content] st, script')
                        end
                  end
              end
        end in
      match r with
      | Normal a => (a, st', rest)
      | Throw error =>
          (Answered VNull,
           print [ConsoleError (Some red)
                    (js "Error: " ++ message_of h error)] st',
           rest)
      end
  end.

(** The health probe: the request fails, or a response arrives whose
    [json()] settles one way or the other. *)
Inductive probe_result : Type :=
| ProbeRejected (e : exn)
| ProbeResponse (healthData : completion value).

(** [await fetch(`${PROXY_URL}/health`)] and [await healthCheck.json()]:
    the status of the answer is not looked at. *)
Definition health_probe (reply : fetch_result) : probe_result :=
  match reply with
  | FetchRejected e => ProbeRejected e
  | FetchResponse healthCheck => ProbeResponse (json healthCheck)
  end.

(** How start-up ends: the process exits, the prompt of the interactive
    session is up, or the remote end has not answered. *)
Inductive startup : Type :=
| Exited (code : Z)
| Interactive
| Unanswered.

(** The loop that lists a directory, [fs.statSync] failing on a name that
    is not there. *)
Fixpoint list_files (dir : jstring) (files : list jstring) (w : World)
    (fileList : jstring) : completion jstring :=
  match files with
  | [] => Normal fileList
  | file :: rest =>
      let fullPath := path_join h dir file in
      match fs w !! fullPath with
      | None =>
          Throw (HostError (js "ENOENT: no such file or directory, stat '"
                            ++ fullPath ++ js "'"))
      | Some node =>
          list_files dir rest w
            (fileList ++ file ++ js " ("
             ++ (match node with
                 | Directory => js "directory"
                 | File _ => js "file"
                 end) ++ js ")" ++ [10])
      end
  end.

Definition user_message (content : jstring) : message :=
  mkMessage user (VString content) None None.

(** The one-shot analysis of [argv.file], up to [process.exit]. *)
Definition process_file (file : jstring) (script : list fetch_result)
    (st : state) : completion startup * state * list fetch_result :=
  let filePath := path_resolve h file in
  match fs (world st) !! filePath with
  | Some node =>
      let st :=
        print [ConsoleLog (Some yellow)
                 (VString (match node with
                           | File _ => js "Processing file: " ++ filePath
                           | Directory =>
                               js "Processing directory: " ++ filePath
                           end))] st in
      let prompt :=
        match node with
        | File content =>
            Normal (js "I'm providing this file content for analysis: "
                    ++ filePath ++ [10; 10] ++ content)
        | Directory =>
            bind (list_files filePath (readdirSync h filePath (fs (world st)))
                             (world st) [])
                 (fun fileList =>
                    Normal (js "I'm providing this directory structure for analysis: "
                            ++ filePath ++ [10; 10] ++ fileList))
        end in
      match prompt with
      | Throw e => (Throw e, st, script)
      | Normal content =>
          let '(a, st, rest) :=
            callGeminiAPI script None (with_messages [user_message content] st) in
          match a with
          | Answered _ => (Normal (Exited 0), st, rest)
          | Awaiting => (Normal Unanswered, st, rest)
          end
      end
  | None =>
      (Normal (Exited 1),
       print [ConsoleError (Some red)
                (js "Error: File or directory not found: " ++ filePath)] st,
       script)
  end.

(** [startCLI()] up to the first prompt. *)
Definition startCLI (probe : probe_result) (script : list fetch_result)
    (st : state) : completion startup * state * list fetch_result :=
  let st :=
    print [ Logo;
            ConsoleLog (Some yellow)
              (VString (js "Using model: " ++ argv_model args));
            ConsoleLog (Some yellow)
              (VString (js "Streaming: "
                        ++ (if argv_stream args then js "enabled"
                            else js "disabled")));
            ConsoleLog (Some yellow)
              (VString (jsq "Type 'exit' or press Ctrl+C to quit" ++ [10])) ]
          st in
  match (match probe with
         | ProbeRejected e => Throw e
         | ProbeResponse healthCheck =>
             bind healthCheck (fun healthData =>
                                 get healthData (js "api_initialized"))
         end) with
  | Throw _ =>
      (Normal (Exited 1),
       print [ ConsoleError (Some red)
                 (js "Error: Cannot connect to proxy server at "
                  ++ PROXY_URL args);
               ConsoleError (Some red)
                 (js "Please start the proxy server first with: npm run start-proxy") ]
             st,
       script)
  | Normal api_initialized =>
      let st :=
        if negb (truthy api_initialized) then
          print [ ConsoleError (Some red)
                    (js "Warning: Gemini API not properly initialized at the proxy server.");
                  ConsoleError (Some red)
                    (js "Please check that GEMINI_API_KEY is set in the .env file.") ]
                st
        else st in
      match argv_file args with
      | Some (c :: file) => process_file (c :: file) script st
      | _ =>
          (* const conversationHistory = []; rl.prompt(); *)
          (Normal Interactive, print [Prompt] (with_messages [] st), script)
      end
  end.

(** [startCLI().catch(...)]: the whole start-up. *)
Definition main (probe : probe_result) (script : list fetch_result)
    (st : state) : startup * state * list fetch_result :=
  match startCLI probe script st with
  | (Normal s, st, rest) => (s, st, rest)
  | (Throw error, st, rest) =>
      (Exited 1,
       print [ConsoleError (Some red)
                (js "Fatal error: " ++ message_of h error)] st,
       rest)
  end.

(** [userInput.toLowerCase() === 'exit']: no code unit outside A-Z
    lower-cases to a letter of the word. *)
Definition toLowerCase_is_exit (userInput : jstring) : bool :=
  bool_decide
    (List.map (fun c => if (65 <=? c) && (c <=? 90) then c + 32 else c)
              userInput = js "exit").

(** How a turn of the interactive session ends. *)
Inductive turn : Type :=
| Prompted                 (* rl.prompt(): ready for the next line *)
| Exit (code : Z)
| Pending.                 (* the remote end has not answered *)

(** The ['line'] handler, [conversationHistory] being [messages st]. *)
Definition on_line (line : jstring) (script : list fetch_result) (st : state)
  : turn * state * list fetch_result :=
  let userInput := trim line in
  if toLowerCase_is_exit userInput then
    (Exit 0,
     print [ConsoleLog (Some yellow) (VString (js "Goodbye!"))] st, script)
  else
    match userInput with
    | _ :: _ =>
        let st := push (user_message userInput) st in
        let '(a, st, rest) := callGeminiAPI script None st in
        match a with
        | Awaiting => (Pending, st, rest)
        | Answered response =>
            let st :=
              if truthy response
              then push (mkMessage assistant response None None) st
              else st in
            (Prompted, print [Prompt] st, rest)
        end
    | [] => (Prompted, print [Prompt] st, script)
    end.

(** The lines of a session, one turn after the other: a line is taken up
    when the turn of the line before it is over. *)
Fixpoint session (lines : list jstring) (script : list fetch_result)
    (st : state) : turn * state * list fetch_result :=
  match lines with
  | [] => (Prompted, st, script)
  | line :: lines' =>
      match on_line line script st with
      | (Prompted, st', rest) => session lines' rest st'
      | stopped => stopped
      end
  end.

End Driver.
End Orchestrator.
Import Orchestrator.

(* ===================================================================== *)
(** ** Vocabulary of the specification *)
(* ===================================================================== *)

Module Spec.

(** [p] occurs in [s] as a substring. *)
Definition occurs (p s : jstring) : Prop := exists a b, s = a ++ p ++ b.

(** A replacement text without a dollar sign. *)
Definition no_dollar (s : jstring) : Prop := 36 ∉ s.

(** The pieces of a text that its line feeds separate: one more than
    there are line feeds. *)
Definition split_count (content : jstring) : nat :=
  S (length (filter (fun c => c = 10) content)).

(** The lines a text holds: every line feed ends one, and what stands
    after the last line feed is a line when it is not empty. *)
Definition true_line_count (content : jstring) : nat :=
  length (filter (fun c => c = 10) content)
  + match last content with
    | Some c => if decide (c = 10) then 0 else 1
    | None => 0
    end.

(** Text in which every surrogate is half of a pair: the text UTF-8 can
    hold. *)
Inductive well_formed : jstring -> Prop :=
| well_formed_nil : well_formed []
| well_formed_unit c s :
    is_high_surrogate c = false -> is_low_surrogate c = false ->
    well_formed s -> well_formed (c :: s)
| well_formed_pair c d s :
    is_high_surrogate c = true -> is_low_surrogate d = true ->
    well_formed s -> well_formed (c :: d :: s).

(** The integers up to 2^53 either way: a double holds each of them
    exactly. *)
Definition safe_integer (z : Z) : Prop := (- 2 ^ 53 <= z <= 2 ^ 53)%Z.

(** A line with its number in front, the way [cat -n] prints it. *)
Definition numbered (n : Z) (line : jstring) : jstring :=
  padStart 6 (int_toString n) ++ js "  " ++ line.

(** A result object that reports an error. *)
Definition is_error (r : value) : Prop :=
  exists m, own_property (match r with VObject props => props | _ => [] end)
                         (js "error") = Some (VString m).

(** A host for worked examples: paths are absolute already, commands
    print nothing and succeed. *)
Definition sample_host : host :=
  mkHost (fun p => p)
         (fun _ _ files => (Normal [], files))
         (fun _ => js "engine error")
         (fun m _ => int_toString m)
         (fun _ _ => VString (js "{}"))
         (fun _ _ w => (Normal VUndefined, w))
         (fun _ _ => Normal VUndefined)
         (fun dir file => dir ++ [47] ++ file)
         (fun _ _ => []).

(** A world with one file. *)
Definition one_file (path content : jstring) : World :=
  mkWorld {[ path := File content ]} [].

(** A frame of the event stream: the [data:] prefix and a payload on one
    line. *)
Definition well_formed_frame (f : jstring) : Prop :=
  startsWith (js "data:") f = true /\ 10 ∉ f.


(** The text of a stream: every frame followed by a blank line. *)
Definition stream_of (frames : list jstring) : jstring :=
  concat ((fun f => f ++ [10; 10]) <$> frames).

(** The frames of the example of the specification. *)
Definition frame_Hel : jstring :=
  jsq "data: {'choices':[{'delta':{'content':'Hel'}}]}".
Definition frame_lo : jstring :=
  jsq "data: {'choices':[{'delta':{'content':'lo'}}]}".
Definition frame_DONE : jstring := js "data: [DONE]".

(** The same stream as two reads, cut inside the second frame. *)
Definition first_read : jstring :=
  frame_Hel ++ [10; 10] ++ jsq "data: {'choices':[{'del".
Definition second_read : jstring :=
  jsq "ta':{'content':'lo'}}]}" ++ [10; 10] ++ frame_DONE ++ [10; 10].

(** The arguments the dispatcher works with once parsing is past. *)
Definition parsed_arguments (args parsedArgs : value) : Prop :=
  match args with
  | VString text => JSON_parse text = Normal parsedArgs
  | _ => parsedArgs = args
  end.

(** Every tool-result message has, earlier in the history, an assistant
    message whose tool call names the same tool. *)
Definition justified (history : list message) : Prop :=
  forall i m,
    history !! i = Some m -> msg_role m = function ->
    exists j a functionCall,
      (j < i)%nat /\ history !! j = Some a /\ msg_role a = assistant /\
      msg_function_call a = Some functionCall /\
      msg_name m = Some (prop functionCall (js "name")).

(** A non-streaming response that carries a tool-call request. *)
Definition tool_call_response (r : response) (data functionCall : value)
  : Prop :=
  ok r = true /\ json r = Normal data /\
  function_call_of data = Normal functionCall /\ truthy functionCall = true.

(** The remote calls of one [callGeminiAPI], first to last, with the
    messages each was issued on: from one call to the next the messages
    grow by the assistant message with the tool call and then the message
    with the result the dispatcher returned for it, and by nothing else.
    [final] is what the messages are in the end. *)
Inductive tool_chain (h : host)
  : bool -> list message -> list request -> list message -> Prop :=
| chain_end stream ms :
    tool_chain h stream ms [mkRequest ms stream] ms
| chain_tool ms content functionCall toolResult w w' later final :
    truthy functionCall = true ->
    processToolCall h (prop functionCall (js "name"))
                    (prop functionCall (js "arguments")) w
      = (Normal toolResult, w') ->
    tool_chain h false
      (ms ++ [ mkMessage assistant content (Some functionCall) None;
               mkMessage function (JSON_stringify h toolResult false) None
                         (Some (prop functionCall (js "name"))) ])
      later final ->
    tool_chain h false ms (mkRequest ms false :: later) final.

(** The state in which the next remote call is made after a tool ran. *)
Definition after_tool (h : host) (stream : bool)
    (content functionCall toolResult : value) (w' : World) (st : state)
  : state :=
  push (tool_result_message h functionCall toolResult)
    (push (tool_call_message content functionCall)
       (print [ ConsoleLog (Some cyan) (VString (js "Tool result:"));
                ConsoleLog None (JSON_stringify h toolResult true) ]
          (with_world w'
             (print [ ConsoleLog (Some blue)
                        (VString (js "Function call: "
                                  ++ text_of h (prop functionCall (js "name")))) ]
                (sent stream st))))).

(** A remote call that fails: the request is rejected, or the status is
    not a success. *)
Definition transport_failure (reply : fetch_result) : Prop :=
  match reply with
  | FetchRejected _ => True
  | FetchResponse r => ok r = false
  end.

(** The health probe has no answer that can be read: the request is
    rejected, or the body of the answer is not JSON, or it is [null]. *)
Definition probe_unreadable (reply : fetch_result) : Prop :=
  match reply with
  | FetchRejected _ => True
  | FetchResponse healthCheck =>
      match json healthCheck with
      | Throw _ => True
      | Normal healthData => healthData = VNull
      end
  end.

Definition sample_argv : argv :=
  mkArgv (js "gemini-2.5-pro-preview-05-06") true None
         (js "http://localhost:8000").

(** The same with streaming switched off. *)
Definition sample_argv_no_stream : argv :=
  mkArgv (js "gemini-2.5-pro-preview-05-06") false None
         (js "http://localhost:8000").

Definition initial_state : state := mkState [] (mkWorld ∅ []) [] [].

(** A response whose message asks for [read_file] on [/a.txt]. *)
Definition read_file_call : value :=
  VObject [ (js "name", VString (js "read_file"));
            (js "arguments", VString (jsq "{'file_path':'/a.txt'}")) ].

Definition read_file_response : response :=
  mkResponse true (js "OK")
    (Normal (VObject
       [ (js "choices",
          VArray [ VObject [ (js "message",
                              VObject [ (js "content", VNull);
                                        (js "function_call", read_file_call) ])
                           ] ]) ]))
    (Some NodeStream).

End Spec.
Import Spec.

(* ===================================================================== *)
(** ** utils/tools.js: write_file, list_directory, search_code *)
(* ===================================================================== *)

Module Paths.

(** The scan of [path.dirname] from the end of the path, over the code
    units of index [length - 1] down to 1 (given here last first): the
    distance from the end of the first slash that follows a code unit
    which is not a slash. *)
Fixpoint dirname_scan (r : jstring) (matchedSlash : bool) (j : nat)
  : option nat :=
  match r with
  | [] => None
  | c :: r' =>
      if c =? 47 then
        if matchedSlash then dirname_scan r' true (S j) else Some j
      else dirname_scan r' false (S j)
  end.

(** [path.dirname] of the POSIX flavour. *)
Definition dirname (path : jstring) : jstring :=
  match path with
  | [] => js "."
  | c0 :: tail =>
      let hasRoot := c0 =? 47 in
      match dirname_scan (rev tail) true 0 with
      | None => if hasRoot then js "/" else js "."
      | Some j =>
          let stop := (length path - 1 - j)%nat in
          if hasRoot && (stop =? 1)%nat then js "//" else take stop path
      end
  end.

(** A rank that [dirname] lowers until it gives its argument back: it
    bounds the number of directories above a path. *)
Definition path_depth (path : jstring) : nat :=
  if decide (path = js ".") then 0
  else match path with
       | [] => 1
       | _ :: _ => 2 * length path
       end.

End Paths.
Import Paths.

Module MoreTools.

(** [fs.mkdirSync(p, { recursive: true })] on the file store: the
    directories on the way to [p] that are not there are made; a regular
    file on the way is an error.  [None] is for fuel that ran out, which
    [path_depth] rules out (see [mkdir_recursive_fuel]). *)
Fixpoint mkdir_recursive (fuel : nat) (target p : jstring)
    (files : gmap (list N) fs_node)
  : option (completion (gmap (list N) fs_node)) :=
  match files !! p with
  | Some Directory => Some (Normal files)
  | Some (File _) =>
      Some (Throw (HostError (js "ENOTDIR: not a directory, mkdir '"
                              ++ target ++ js "'")))
  | None =>
      if decide (dirname p = p) then Some (Normal (<[p := Directory]> files))
      else
        match fuel with
        | O => None
        | S fuel' =>
            match mkdir_recursive fuel' target (dirname p) files with
            | Some (Normal files') => Some (Normal (<[p := Directory]> files'))
            | other => other
            end
        end
  end.

Definition mkdirSync_recursive (p : jstring) (w : World) : completion World :=
  match fs w !! p with
  | Some (File _) =>
      Throw (HostError (js "EEXIST: file already exists, mkdir '"
                        ++ p ++ js "'"))
  | _ =>
      match mkdir_recursive (path_depth p) p p (fs w) with
      | Some (Normal files) => Normal (mkWorld files (spawned w))
      | Some (Throw e) => Throw e
      | None => Throw (HostError (js "ENAMETOOLONG: name too long, mkdir '"
                                  ++ p ++ js "'"))
      end
  end.

(** [writeFile(p, content, 'utf8')] where [p] may be new: the directory
    of [p] has to be there. *)
Definition writeFile_new (p content : jstring) (w : World)
  : completion World :=
  match fs w !! dirname p with
  | Some Directory => writeFileAsync p content w
  | Some (File _) =>
      Throw (HostError (js "ENOTDIR: not a directory, open '" ++ p ++ js "'"))
  | None =>
      Throw (HostError (js "ENOENT: no such file or directory, open '"
                        ++ p ++ js "'"))
  end.

(** What [error.status] and [error.stderr] are on an error thrown by
    [execSync]. *)
Record shell_error : Type := mkShellError {
  error_status : exn -> option Z;
  error_stderr : exn -> option jstring
}.

Section Implementations.
Variable h : host.
Variable globAsync :
  jstring -> jstring -> gmap (list N) fs_node -> completion (list jstring).
Variable se : shell_error.

(** [write_file({ file_path, content })] *)
Definition write_file (file_path content : jstring) (w : World)
  : value * World :=
  let absolutePath := path_resolve h file_path in
  let dirPath := dirname absolutePath in
  match (if negb (existsSync dirPath w) then mkdirSync_recursive dirPath w
         else Normal w) with
  | Throw e => (error_result (js "Error writing file: " ++ message_of h e), w)
  | Normal w1 =>
      match writeFile_new absolutePath content w1 with
      | Throw e =>
          (error_result (js "Error writing file: " ++ message_of h e), w1)
      | Normal w2 =>
          (VObject [ (js "success", VBool true);
                     (js "message",
                      VString (js "File written successfully: "
                               ++ file_path)) ],
           w2)
      end
  end.

(** The entry [{ name, type }] of a listing. *)
Definition entry (name : jstring) (node : fs_node) : value :=
  VObject [ (js "name", VString name);
            (js "type", VString (match node with
                                 | Directory => js "directory"
                                 | File _ => js "file"
                                 end)) ].

(** [files.map(file => ({ name: file, type: ... }))], [fs.statSync]
    failing on a name that is not in the store. *)
Fixpoint entries (absolutePath : jstring) (files : list jstring) (w : World)
  : completion (list value) :=
  match files with
  | [] => Normal []
  | file :: rest =>
      match fs w !! path_join h absolutePath file with
      | None =>
          Throw (HostError (js "ENOENT: no such file or directory, stat '"
                            ++ path_join h absolutePath file ++ js "'"))
      | Some node =>
          bind (entries absolutePath rest w)
               (fun es => Normal (entry file node :: es))
      end
  end.

(** [list_directory({ directory_path, pattern })] *)
Definition list_directory (directory_path : jstring) (pattern : option jstring)
    (w : World) : value :=
  let absolutePath := path_resolve h directory_path in
  match fs w !! absolutePath with
  | None => error_result (js "Directory not found: " ++ directory_path)
  | Some (File _) =>
      error_result (js "Path is not a directory: " ++ directory_path)
  | Some Directory =>
      let names :=
        match pattern with
        | Some (c :: p) => globAsync (c :: p) absolutePath (fs w)
        | _ => Normal (readdirSync h absolutePath (fs w))
        end in
      match bind names (fun files => entries absolutePath files w) with
      | Throw e =>
          error_result (js "Error listing directory: " ++ message_of h e)
      | Normal es =>
          VObject [ (js "files", VArray es);
                    (js "directory", VString absolutePath) ]
      end
  end.

(** The command [search_code] builds. *)
Definition grep_command (pattern absolutePath : jstring)
    (file_pattern : option jstring) : jstring :=
  jsq "grep -r '" ++ pattern ++ jsq "' '" ++ absolutePath ++ jsq "'"
  ++ match file_pattern with
     | Some (c :: p) => jsq " --include='" ++ (c :: p) ++ jsq "'"
     | _ => []
     end.

(** One line of output as [{ file, content }]: cut at the colons, the
    first part is the file, the others joined again are the content. *)
Definition parse_match (line : jstring) : value :=
  let parts := split [58] line in
  let filePath := default VUndefined (VString <$> head parts) in
  let content := join [58] (tail parts) in
  VObject [ (js "file", filePath); (js "content", VString content) ].

(** [result.trim().split('\n').filter(line => line.trim() !== '')] *)
Definition match_lines (result : jstring) : list jstring :=
  List.filter (fun line => negb (bool_decide (trim line = [])))
              (split [10] (trim result)).

(** [search_code({ pattern, path: searchPath = '.', file_pattern })] *)
Definition search_code (pattern : jstring) (searchPath : option jstring)
    (file_pattern : option jstring) (w : World) : value * World :=
  let searchPath := default (js ".") searchPath in
  let absolutePath := path_resolve h searchPath in
  if negb (existsSync absolutePath w)
  then (error_result (js "Path not found: " ++ searchPath), w)
  else
    let command := grep_command pattern absolutePath file_pattern in
    match execSync h command 30000 w with
    | (Normal result, w') =>
        let matches := match_lines result in
        (VObject [ (js "matches", VArray (parse_match <$> matches));
                   (js "count", VNumber (Z.of_nat (length matches)) 0);
                   (js "pattern", VString pattern) ],
         w')
    | (Throw error, w') =>
        if bool_decide (error_status se error = Some 1%Z
                        /\ error_stderr se error = Some [])
        then (VObject [ (js "matches", VArray []);
                        (js "count", VNumber 0 0);
                        (js "pattern", VString pattern) ], w')
        else (error_result (js "Error searching code: " ++ message_of h error),
              w')
    end.

End Implementations.

(** An entry of [toolDefinitions]: the name of the function, its
    description, its parameters with their types, and the required ones. *)
Record tool_definition : Type := mkToolDefinition {
  td_name : jstring;
  td_description : jstring;
  td_properties : list (jstring * jstring);
  td_required : list jstring
}.

Definition toolDefinitions : list tool_definition :=
  [ mkToolDefinition (js "read_file") (js "Read the contents of a file")
      [ (js "file_path", js "string"); (js "offset", js "integer");
        (js "limit", js "integer") ]
      [ js "file_path" ];
    mkToolDefinition (js "write_file") (js "Write content to a file")
      [ (js "file_path", js "string"); (js "content", js "string") ]
      [ js "file_path"; js "content" ];
    mkToolDefinition (js "edit_file") (js "Edit a file by replacing text")
      [ (js "file_path", js "string"); (js "old_string", js "string");
        (js "new_string", js "string") ]
      [ js "file_path"; js "old_string"; js "new_string" ];
    mkToolDefinition (js "list_directory")
      (js "List files and directories in a specified path")
      [ (js "directory_path", js "string"); (js "pattern", js "string") ]
      [ js "directory_path" ];
    mkToolDefinition (js "search_code") (js "Search for a pattern in files")
      [ (js "pattern", js "string"); (js "path", js "string");
        (js "file_pattern", js "string") ]
      [ js "pattern" ];
    mkToolDefinition (js "execute_command") (js "Execute a shell command")
      [ (js "command", js "string"); (js "timeout", js "integer") ]
      [ js "command" ] ].

End MoreTools.
Import MoreTools.

(** Hosts and inputs for worked examples. *)
Module Samples.

(** A host whose shell prints the given text, or fails with the given
    error, whatever the command. *)
Definition shell_host (outcome : completion jstring) : host :=
  mkHost (fun p => p)
         (fun _ _ files => (outcome, files))
         (fun _ => js "engine error")
         (fun m _ => int_toString m)
         (fun _ _ => VString (js "{}"))
         (fun _ _ w => (Normal VUndefined, w))
         (fun _ _ => Normal VUndefined)
         (fun dir file => dir ++ [47] ++ file)
         (fun _ _ => [js "a.txt"; js "sub"]).

(** [grep] ending with status 1 and nothing on its error stream. *)
Definition no_match : exn := HostError (js "Command failed: grep").

Definition grep_errors : shell_error :=
  mkShellError
    (fun e => match e with
              | HostError m =>
                  if decide (m = js "Command failed: grep") then Some 1%Z
                  else Some 2%Z
              | _ => None
              end)
    (fun e => match e with
              | HostError m =>
                  if decide (m = js "Command failed: grep") then Some []
                  else Some (js "grep: error")
              | _ => None
              end).

(** No glob pattern matches anything. *)
Definition no_glob (pattern cwd : jstring) (files : gmap (list N) fs_node)
  : completion (list jstring) := Normal [].

(** A store with a directory and two entries in it. *)
Definition project : World :=
  mkWorld (<[js "/p" := Directory]>
             (<[js "/p/a.txt" := File (js "x")]>
                (<[js "/p/sub" := Directory]> ∅))) [].

(** A text response of the remote end, not streamed. *)
Definition text_response (content : jstring) : response :=
  mkResponse true (js "OK")
    (Normal (VObject
       [ (js "choices",
          VArray [ VObject [ (js "message",
                              VObject [ (js "content", VString content) ]) ]
                 ]) ]))
    (Some NodeStream).

(** A response asking for a tool, with its arguments. *)
Definition call_response (name : jstring) (arguments : value) : response :=
  mkResponse true (js "OK")
    (Normal (VObject
       [ (js "choices",
          VArray [ VObject
                     [ (js "message",
                        VObject [ (js "content", VNull);
                                  (js "function_call",
                                   VObject [ (js "name", VString name);
                                             (js "arguments", arguments) ]) ])
                     ] ]) ]))
    (Some NodeStream).

End Samples.
Import Samples.

(* ===================================================================== *)
(** * Properties *)
(* ===================================================================== *)

(** ** Strings: occurrences, replacement, splitting *)

Module StringFacts.

Lemma startsWith_true p s : startsWith p s = true <-> exists b, s = p ++ b.
Proof.
  revert s; induction p as [|a p IH]; intros s; simpl.
  - split; [intros _; by exists s | done].
  - destruct s as [|b s].
    + split; [done | intros [t Ht]; discriminate].
    + rewrite andb_true_iff, N.eqb_eq, IH. split.
      * intros [-> [t ->]]. by exists t.
      * intros [t Ht]. injection Ht as -> ->. eauto.
Qed.

Lemma startsWith_app p b : startsWith p (p ++ b) = true.
Proof. apply startsWith_true. by exists b. Qed.

Lemma indexOf_Some p s i :
  indexOf p s = Some i ->
  startsWith p (drop i s) = true /\ (i <= length s)%nat /\
  forall j, (j < i)%nat -> startsWith p (drop j s) = false.
Proof.
  revert i; induction s as [|c s IH]; intros i; simpl.
  - destruct (startsWith p []) eqn:E; [|done].
    intros [= <-]. repeat split; [done | lia | lia].
  - destruct (startsWith p (c :: s)) eqn:E.
    + intros [= <-]. repeat split; [done | lia | lia].
    + destruct (indexOf p s) as [k|] eqn:Ek; [|done].
      intros [= <-]. destruct (IH k eq_refl) as (H1 & H2 & H3).
      repeat split; [done | lia |].
      intros [|j] Hj; [done | apply H3; lia].
Qed.

Lemma indexOf_None p s :
  indexOf p s = None -> forall j, startsWith p (drop j s) = false.
Proof.
  induction s as [|c s IH]; simpl.
  - destruct (startsWith p []) eqn:E; [done|]. intros _ j. by rewrite drop_nil.
  - destruct (startsWith p (c :: s)) eqn:E; [done|].
    destruct (indexOf p s) eqn:Ek; [done|]. intros _ [|j]; [done | by apply IH].
Qed.

Lemma occurs_drop p s : occurs p s <-> exists j, startsWith p (drop j s) = true.
Proof.
  split.
  - intros (a & b & ->). exists (length a).
    rewrite drop_app_length. apply startsWith_app.
  - intros (j & Hj). apply startsWith_true in Hj as [b Hb].
    exists (take j s), b. by rewrite <- Hb, take_drop.
Qed.

Lemma includes_true p s : includes p s = true <-> occurs p s.
Proof.
  unfold includes. rewrite occurs_drop.
  destruct (indexOf p s) as [i|] eqn:E.
  - apply indexOf_Some in E as (H & _). split; [eauto | done].
  - split; [done|]. intros [j Hj]. by rewrite (indexOf_None _ _ E) in Hj.
Qed.

Lemma includes_false p s : includes p s = false <-> ~ occurs p s.
Proof.
  rewrite <- includes_true. destruct (includes p s); split; congruence.
Qed.

(** The position [indexOf] finds cuts the text around the first
    occurrence. *)
Lemma indexOf_first p s i :
  indexOf p s = Some i ->
  s = take i s ++ p ++ drop (i + length p) s /\
  forall a b, s = a ++ p ++ b -> (i <= length a)%nat.
Proof.
  intros E. apply indexOf_Some in E as (H1 & H2 & H3).
  apply startsWith_true in H1 as [b Hb]. split.
  - rewrite <- drop_drop, Hb, drop_app_length, <- Hb. by rewrite take_drop.
  - intros a b' ->. destruct (decide (i <= length a)%nat); [done|].
    specialize (H3 (length a) ltac:(lia)).
    by rewrite drop_app_length, startsWith_app in H3.
Qed.

Lemma GetSubstitution_literal m b a t :
  no_dollar t -> GetSubstitution m b a t = t.
Proof.
  unfold no_dollar. induction t as [|c t IH]; [done|].
  intros H. apply not_elem_of_cons in H as [Hc Ht].
  simpl. destruct c as [|c]; [by rewrite IH|].
  repeat (destruct c as [c|c|]; try by rewrite IH).
Qed.

(** Without a dollar sign in the replacement, [replace] puts it, as it
    is, in the place of the first occurrence. *)
Lemma replace_first_literal s old new i :
  indexOf old s = Some i -> no_dollar new ->
  replace s old new = take i s ++ new ++ drop (i + length old) s.
Proof.
  intros E H. unfold replace. by rewrite E, GetSubstitution_literal.
Qed.

(** Well-formed text goes through UTF-8 unchanged. *)
Lemma toWellFormed_well_formed s : well_formed s -> toWellFormed s = s.
Proof.
  induction 1 as [|c s Hh Hl _ IH|c d s Hh Hl _ IH]; [done| |].
  - cbn [toWellFormed]. by rewrite Hh, Hl, IH.
  - cbn [toWellFormed]. by rewrite Hh, Hl, IH.
Qed.

Lemma well_formed_app a b : well_formed a -> well_formed b -> well_formed (a ++ b).
Proof.
  induction 1 as [|c s Hh Hl _ IH|c d s Hh Hl _ IH]; intros Hb; [done| |].
  - apply well_formed_unit; auto.
  - apply well_formed_pair; auto.
Qed.

End StringFacts.
Import StringFacts.

(** ** JSON.parse never runs out of fuel *)

Module JsonFacts.

Lemma skip_ws_length s : (length (skip_ws s) <= length s)%nat.
Proof.
  induction s as [|c s IH]; [done|]. simpl.
  destruct (_ || _); simpl; lia.
Qed.

Ltac crack H :=
  repeat match type of H with
         | context [match ?x with _ => _ end] => destruct x
         end.

Ltac crack_vars H :=
  repeat (match type of H with
          | context [match ?x with _ => _ end] => is_var x; destruct x
          end; cbv beta iota in H).

Lemma parse_string_body_length s acc str r :
  parse_string_body s acc = Some (str, r) -> (length r < length s)%nat.
Proof.
  revert acc. induction s as [s IH] using (induction_ltof1 _ (@length N)).
  unfold ltof in IH. intros acc H.
  destruct s as [|c s]; [done|].
  cbn [parse_string_body] in H.
  crack H; try discriminate;
    try (injection H as <- <-; simpl; lia);
    try (apply IH in H; simpl in *; lia).
Qed.

Lemma span_digits_length s d r :
  span_digits s = (d, r) -> length s = (length d + length r)%nat.
Proof.
  revert d r; induction s as [|c s IH]; intros d r; simpl.
  - by intros [= <- <-].
  - destruct (is_digit c).
    + destruct (span_digits s) as [d' r'] eqn:E. intros [= <- <-].
      simpl. by rewrite (IH d' r').
    + by intros [= <- <-].
Qed.

Lemma parse_fraction_length s d r :
  parse_fraction s = Some (d, r) -> (length r <= length s)%nat.
Proof.
  unfold parse_fraction. destruct s as [|c s]; [by intros [= <- <-]|].
  destruct (span_digits s) as [d' r'] eqn:E. apply span_digits_length in E.
  intros H. crack H; try discriminate; injection H as <- <-; simpl in *; lia.
Qed.

Lemma parse_exponent_length s z r :
  parse_exponent s = Some (z, r) -> (length r <= length s)%nat.
Proof.
  unfold parse_exponent. destruct s as [|c s]; [by intros [= <- <-]|].
  assert (forall t neg r1,
            (let '(neg, r1) :=
               match t with
               | 45 :: r1 => (true, r1)
               | 43 :: r1 => (false, r1)
               | _ => (false, t)
               end in (neg, r1)) = (neg, r1) ->
            (length r1 <= length t)%nat) as Hsign.
  { intros t neg r1 H. crack_vars H; injection H as <- <-; simpl; lia. }
  destruct (match s with
            | 45 :: r1 => (true, r1)
            | 43 :: r1 => (false, r1)
            | _ => (false, s)
            end) as [neg r1] eqn:Es.
  assert (length r1 <= length s)%nat as Hr1.
  { apply (Hsign s neg). by rewrite Es. }
  destruct (span_digits r1) as [d' r'] eqn:E. apply span_digits_length in E.
  intros H. crack H; try discriminate; injection H as <- <-; simpl in *; lia.
Qed.

Lemma parse_number_length s v r :
  parse_number s = Some (v, r) -> (length r < length s)%nat.
Proof.
  unfold parse_number.
  destruct (match s with
            | 45 :: r => (true, r)
            | _ => (false, s)
            end) as [neg s1] eqn:Es.
  assert (length s1 <= length s)%nat as Hs1.
  { crack_vars Es; injection Es as <- <-; simpl; lia. }
  destruct (span_digits s1) as [int s2] eqn:E. apply span_digits_length in E.
  destruct (parse_fraction s2) as [[frac s3]|] eqn:Ef.
  2:{ intros H. crack H; discriminate. }
  apply parse_fraction_length in Ef.
  destruct (parse_exponent s3) as [[ex s4]|] eqn:Ee.
  2:{ intros H. crack H; discriminate. }
  apply parse_exponent_length in Ee.
  intros H. crack H; try discriminate; injection H as <- <-; simpl in *; lia.
Qed.

Lemma startsWith_length p s :
  startsWith p s = true -> (length p <= length s)%nat.
Proof.
  intros H. apply StringFacts.startsWith_true in H as [b ->].
  rewrite length_app. lia.
Qed.

Lemma parse_literal_length s v r :
  parse_literal s = Some (v, r) -> (length r < length s)%nat.
Proof.
  unfold parse_literal.
  destruct (startsWith (js "true") s) eqn:E1.
  { apply startsWith_length in E1. intros [= <- <-].
    rewrite length_drop. change (length (js "true")) with 4%nat in E1. lia. }
  destruct (startsWith (js "false") s) eqn:E2.
  { apply startsWith_length in E2. intros [= <- <-].
    rewrite length_drop. change (length (js "false")) with 5%nat in E2. lia. }
  destruct (startsWith (js "null") s) eqn:E3.
  { apply startsWith_length in E3. intros [= <- <-].
    rewrite length_drop. change (length (js "null")) with 4%nat in E3. lia. }
  apply parse_number_length.
Qed.

(** One step of case analysis on a parser equation [H], keeping the
    lengths of what the lexers leave. *)
Ltac parser_step H IHv :=
  first
    [ match type of H with
      | context [skip_ws ?t] =>
          let L := fresh "L" in
          pose proof (skip_ws_length t) as L; destruct (skip_ws t)
      end
    | match type of H with
      | context [match ?x with _ => _ end] => is_var x; destruct x
      end; cbv beta iota in H
    | match type of H with
      | context [parse_string_body ?a ?b] =>
          let E := fresh "E" in
          destruct (parse_string_body a b) as [[? ?]|] eqn:E;
          [apply parse_string_body_length in E|]
      end
    | match type of H with
      | context [parse_literal ?a] =>
          let E := fresh "E" in
          destruct (parse_literal a) as [[? ?]|] eqn:E;
          [apply parse_literal_length in E|]
      end
    | match type of H with
      | context [match parse_value ?f ?a with _ => _ end] =>
          let E := fresh "E" in
          destruct (parse_value f a) as [? ?| |] eqn:E;
          [apply (proj2 (IHv _)) in E| |]
      end ].

Ltac parser_leaf IHv IHe IHm :=
  simpl in *;
  first
    [ discriminate
    | lia
    | match goal with
      | H : Parsed _ _ = Parsed _ _ |- _ => injection H as <- <-; simpl in *; lia
      end
    | match goal with
      | H : parse_value _ _ = OutOfFuel |- _ =>
          apply (proj1 (IHv _)) in H; [done | simpl in *; lia]
      end
    | match goal with
      | H : parse_elements _ _ _ = OutOfFuel |- _ =>
          apply (proj1 (IHe _ _)) in H; [done | simpl in *; lia]
      end
    | match goal with
      | H : parse_members _ _ _ = OutOfFuel |- _ =>
          apply (proj1 (IHm _ _)) in H; [done | simpl in *; lia]
      end
    | match goal with
      | H : parse_elements _ _ _ = Parsed _ _ |- _ =>
          apply (proj2 (IHe _ _)) in H; simpl in *; lia
      end
    | match goal with
      | H : parse_members _ _ _ = Parsed _ _ |- _ =>
          apply (proj2 (IHm _ _)) in H; simpl in *; lia
      end ].

(** With fuel above twice the length of the text no parser runs out of
    it, and what is parsed is taken from the text. *)
Lemma parser_fuel fuel :
  (forall s,
     ((2 * length s + 2 <= fuel)%nat -> parse_value fuel s <> OutOfFuel) /\
     (forall v r, parse_value fuel s = Parsed v r ->
                  (length r < length s)%nat)) /\
  (forall s acc,
     ((2 * length s + 3 <= fuel)%nat -> parse_elements fuel s acc <> OutOfFuel) /\
     (forall v r, parse_elements fuel s acc = Parsed v r ->
                  (length r < length s)%nat)) /\
  (forall s acc,
     ((2 * length s + 3 <= fuel)%nat -> parse_members fuel s acc <> OutOfFuel) /\
     (forall v r, parse_members fuel s acc = Parsed v r ->
                  (length r < length s)%nat)).
Proof.
  induction fuel as [|fuel (IHv & IHe & IHm)].
  { repeat split; intros; first [lia | discriminate]. }
  split; [|split].
  - intros s. split.
    + intros Hlen H. cbn [parse_value] in H.
      repeat parser_step H IHv; parser_leaf IHv IHe IHm.
    + intros v r H. cbn [parse_value] in H.
      repeat parser_step H IHv; parser_leaf IHv IHe IHm.
  - intros s acc. split.
    + intros Hlen H. cbn [parse_elements] in H.
      repeat parser_step H IHv; parser_leaf IHv IHe IHm.
    + intros v r H. cbn [parse_elements] in H.
      repeat parser_step H IHv; parser_leaf IHv IHe IHm.
  - intros s acc. split.
    + intros Hlen H. cbn [parse_members] in H.
      repeat parser_step H IHv; parser_leaf IHv IHe IHm.
    + intros v r H. cbn [parse_members] in H.
      repeat parser_step H IHv; parser_leaf IHv IHe IHm.
Qed.

(** [JSON_parse] rejects a text only for its syntax. *)
Lemma parse_value_fuel text : parse_value (parse_fuel text) text <> OutOfFuel.
Proof. apply (proj1 (parser_fuel _)). unfold parse_fuel. lia. Qed.

End JsonFacts.

(** ** The tools *)

Module ToolFacts.

Lemma first_forbidden_Some l command f :
  f ∈ l -> occurs f command -> is_Some (first_forbidden l command).
Proof.
  intros Hin Hocc. induction Hin as [f l|f g l Hin IH]; simpl.
  - apply includes_true in Hocc. rewrite Hocc. by eexists.
  - destruct (includes g command); [by eexists | by apply IH].
Qed.

Lemma first_forbidden_None l command :
  first_forbidden l command = None <-> forall f, f ∈ l -> ~ occurs f command.
Proof.
  induction l as [|g l IH]; simpl.
  - split; [intros _ f Hf; inversion Hf | done].
  - destruct (includes g command) eqn:E.
    + split; [done|]. intros H. apply includes_true in E.
      destruct (H g); [left | done].
    + rewrite IH. apply includes_false in E. split.
      * intros H f Hf. apply elem_of_cons in Hf as [->|Hf]; auto.
      * intros H f Hf. apply H. by right.
Qed.

(** C1. A command that contains an entry of the deny-list as a substring
    is answered with the error object that names the command, and nothing
    is executed: the world, with its record of spawned commands, is the one
    before the call. *)
Theorem execute_command_rejects_forbidden
    (h : host) (command : jstring) (timeout : option Z) (w : World)
    (forbidden : jstring) :
  forbidden ∈ forbiddenCommands ->
  occurs forbidden command ->
  execute_command h command timeout w =
    (error_result (js "Command not allowed for security reasons: " ++ command),
     w).
Proof.
  intros Hin Hocc. unfold execute_command.
  destruct (first_forbidden_Some _ _ _ Hin Hocc) as [f ->]. done.
Qed.

Lemma execute_command_rejects_forbidden_witness :
  execute_command sample_host (js "echo x; sudo reboot") None
                  (mkWorld ∅ []) =
    (error_result (js "Command not allowed for security reasons: "
                   ++ js "echo x; sudo reboot"),
     mkWorld ∅ []).
Proof.
  apply (execute_command_rejects_forbidden sample_host
           (js "echo x; sudo reboot") None (mkWorld ∅ []) (js "sudo")).
  - apply (bool_decide_unpack _). vm_compute. exact I.
  - exists (js "echo x; "), (js " reboot"). reflexivity.
Defined.

(** What Node accepts is handed to the shell. *)
Lemma execSync_runs h command timeout w :
  command <> [] -> (0 <= timeout)%Z ->
  execSync h command timeout w
  = (let '(r, fs') := run_shell h command timeout (fs w) in
     (r, mkWorld fs' (spawned w ++ [command]))).
Proof.
  intros Hc Ht. unfold execSync. destruct command as [|c command]; [done|].
  by destruct (Z.ltb_spec timeout 0); [lia|].
Qed.

(** The check is the only barrier of the tool: a command that contains no
    entry of the list, and that Node accepts, is handed to the shell. *)
Lemma execute_command_runs_others h command timeout w :
  (forall f, f ∈ forbiddenCommands -> ~ occurs f command) ->
  command <> [] -> (0 <= default 60000 timeout)%Z ->
  spawned (execute_command h command timeout w).2 = spawned w ++ [command].
Proof.
  intros H Hc Ht. apply first_forbidden_None in H. unfold execute_command.
  rewrite H. unfold execSync. destruct command as [|c command]; [done|].
  destruct (Z.ltb_spec (default 60000%Z timeout) 0); [lia|].
  destruct (run_shell h (c :: command) (default 60000%Z timeout) (fs w))
    as [[r|e] files]; done.
Qed.

(** *** edit_file *)

Lemma exists_file h file_path w content :
  fs w !! path_resolve h file_path = Some (File content) ->
  existsSync (path_resolve h file_path) w = true /\
  readFileAsync (path_resolve h file_path) w = Normal content.
Proof. intros H. unfold existsSync, readFileAsync. by rewrite H. Qed.

(** C5. On an existing file whose content does not contain [old_string],
    [edit_file] answers with an error object and the world after the call
    is the world before it: nothing is written. *)
Theorem edit_file_absent_no_write
    (h : host) (file_path old_string new_string content : jstring)
    (w : World) :
  fs w !! path_resolve h file_path = Some (File content) ->
  ~ occurs old_string content ->
  is_error (edit_file h file_path old_string new_string w).1 /\
  (edit_file h file_path old_string new_string w).2 = w /\
  fs (edit_file h file_path old_string new_string w).2
    !! path_resolve h file_path = Some (File content).
Proof.
  intros Hfile Hocc. destruct (exists_file _ _ _ _ Hfile) as [He Hr].
  apply includes_false in Hocc. unfold edit_file.
  rewrite He, Hr, Hocc. simpl. repeat split; [|done].
  eexists. reflexivity.
Qed.

Lemma edit_file_absent_no_write_witness :
  is_error (edit_file sample_host (js "/a.txt") (js "foo") (js "bar")
              (one_file (js "/a.txt") (js "hello world"))).1 /\
  (edit_file sample_host (js "/a.txt") (js "foo") (js "bar")
     (one_file (js "/a.txt") (js "hello world"))).2
  = one_file (js "/a.txt") (js "hello world") /\
  fs (edit_file sample_host (js "/a.txt") (js "foo") (js "bar")
        (one_file (js "/a.txt") (js "hello world"))).2
    !! path_resolve sample_host (js "/a.txt") = Some (File (js "hello world")).
Proof.
  apply (edit_file_absent_no_write sample_host (js "/a.txt") (js "foo")
           (js "bar") (js "hello world")).
  - reflexivity.
  - apply includes_false. reflexivity.
Defined.

(** What [edit_file] does on a file that contains [old_string]: the
    content after the call is [replace] of the content before, as UTF-8
    holds it. *)
Lemma edit_file_present h file_path old_string new_string content w :
  fs w !! path_resolve h file_path = Some (File content) ->
  occurs old_string content ->
  edit_file h file_path old_string new_string w =
    (VObject [ (js "success", VBool true);
               (js "message",
                VString (js "File edited successfully: " ++ file_path));
               (js "replacements", VNumber 1 0) ],
     mkWorld (<[path_resolve h file_path :=
                  File (toWellFormed (replace content old_string new_string))]>
                (fs w))
             (spawned w)).
Proof.
  intros Hfile Hocc. destruct (exists_file _ _ _ _ Hfile) as [He Hr].
  apply includes_true in Hocc. unfold edit_file.
  rewrite He, Hr, Hocc. simpl. unfold writeFileAsync. by rewrite Hfile.
Qed.

(** With a replacement text free of dollar signs, exactly the first
    occurrence of [old_string] gives way to [new_string]: [before] is the
    shortest text in front of an occurrence. *)
Lemma edit_file_first_occurrence h file_path old_string new_string content w :
  fs w !! path_resolve h file_path = Some (File content) ->
  occurs old_string content ->
  no_dollar new_string ->
  exists before after,
    content = before ++ old_string ++ after /\
    (forall a b, content = a ++ old_string ++ b ->
                 (length before <= length a)%nat) /\
    fs (edit_file h file_path old_string new_string w).2
      !! path_resolve h file_path
    = Some (File (toWellFormed (before ++ new_string ++ after))).
Proof.
  intros Hfile Hocc Hnd.
  rewrite (edit_file_present _ _ _ _ _ _ Hfile Hocc). cbn [snd fs].
  rewrite lookup_insert_eq.
  apply includes_true in Hocc. unfold includes in Hocc.
  destruct (indexOf old_string content) as [i|] eqn:E; [|done].
  rewrite (replace_first_literal _ _ _ _ E Hnd).
  destruct (indexOf_first _ _ _ E) as [Hcut Hmin].
  apply indexOf_Some in E as (_ & Hi & _).
  exists (take i content), (drop (i + length old_string) content).
  split; [done|]. split; [|done].
  intros a b Hab. rewrite length_take. specialize (Hmin a b Hab). lia.
Qed.

(** C6. The literal replacement fails on a dollar sign: asked to put
    [$$] in the place of [PID] in the one-line script [echo PID],
    [edit_file] reports success and leaves [echo $] in the file. *)
Theorem edit_file_dollar_not_literal :
  edit_file sample_host (js "/run.sh") (js "PID") (js "$$")
            (one_file (js "/run.sh") (js "echo PID"))
  = (VObject [ (js "success", VBool true);
               (js "message",
                VString (js "File edited successfully: /run.sh"));
               (js "replacements", VNumber 1 0) ],
     mkWorld (<[js "/run.sh" := File (js "echo $")]>
                (fs (one_file (js "/run.sh") (js "echo PID")))) [])
  /\ js "echo $" <> js "echo " ++ js "$$" ++ js "".
Proof.
  split; [|done].
  rewrite (edit_file_present sample_host (js "/run.sh") (js "PID") (js "$$")
             (js "echo PID")); [done | done |].
  exists (js "echo "), (js ""). reflexivity.
Qed.

(** *** read_file *)

Lemma split_go_line_feeds s cur :
  length (split_go [10] s 0 cur) = S (length (filter (fun c => c = 10) s)).
Proof.
  revert cur; induction s as [|c s IH]; intros cur; [done|].
  cbn [split_go startsWith length Nat.sub].
  rewrite andb_true_r, filter_cons.
  destruct (N.eqb_spec 10 c) as [<-|Hc].
  - rewrite decide_True by done. simpl. by rewrite IH.
  - rewrite decide_False by done. apply IH.
Qed.

(** [lines.length] is the number of pieces of the content. *)
Lemma split_lines_length content :
  length (split [10] content) = split_count content.
Proof. apply split_go_line_feeds. Qed.

(** The pieces are the lines of a text whose last line has no line feed
    after it; a text that ends in a line feed, and the empty text, have
    one piece more than lines. *)
Lemma split_count_lines content :
  split_count content
  = Nat.add (true_line_count content)
            (match last content with
             | Some c => if decide (c = 10) then 1%nat else 0%nat
             | None => 1%nat
             end).
Proof.
  unfold split_count, true_line_count.
  destruct (last content) as [c|]; [destruct (decide (c = 10))|]; lia.
Qed.

(** [slice(o, o + l)] for an offset that is not negative and a positive
    limit: the window of at most [l] elements from index [o] on. *)
Lemma array_slice_window {A} (lines : list A) (o l : Z) :
  (0 <= o)%Z -> (0 < l)%Z ->
  array_slice lines o (o + l) =
    take (Z.to_nat (Z.max 0 (Z.min l (Z.of_nat (length lines) - o))))
         (drop (Z.to_nat o) lines).
Proof.
  intros Ho Hl. unfold array_slice, clamp_index.
  destruct (Z.ltb_spec o 0); [lia|].
  destruct (Z.ltb_spec (o + l) 0); [lia|].
  destruct (Z.le_gt_cases (Z.of_nat (length lines)) o) as [Hge|Hlt].
  - rewrite (drop_ge lines (Z.to_nat (Z.min _ _))) by lia.
    rewrite (drop_ge lines (Z.to_nat o)) by lia. by rewrite !take_nil.
  - rewrite (Z.min_l o) by lia. f_equal. lia.
Qed.

Lemma slice_length {A} (lines : list A) (o l : Z) :
  (0 <= o)%Z -> (0 < l)%Z ->
  Z.of_nat (length (array_slice lines o (o + l))) =
    Z.max 0 (Z.min l (Z.of_nat (length lines) - o)).
Proof.
  intros Ho Hl. rewrite array_slice_window, length_take, length_drop by done.
  lia.
Qed.

Lemma read_file_on_file h file_path offset limit w content :
  fs w !! path_resolve h file_path = Some (File content) ->
  read_file h file_path (Some offset) (Some limit) w =
    let selectedLines :=
      array_slice (split [10] content) offset (offset + limit) in
    VObject [ (js "content",
               VString (join [10]
                          (imap (fun i line =>
                                   numbered (Z.of_nat i + offset + 1) line)
                                selectedLines)));
              (js "total_lines",
               VNumber (Z.of_nat (length (split [10] content))) 0);
              (js "displayed_lines",
               VNumber (Z.of_nat (length selectedLines)) 0) ].
Proof.
  intros Hfile. destruct (exists_file _ _ _ _ Hfile) as [He Hr].
  unfold read_file. by rewrite He, Hr.
Qed.

(** C7, as the code has it.  On an existing file that is not empty and
    does not end in a line feed, with an offset [o >= 0] and a limit
    [l > 0], [read_file] returns the lines of index [o] up to [o + l], as
    many as there are, which is [max 0 (min l (total - o))], the line of
    index [o + i] carrying the number [o + i + 1]; [total_lines] is the
    true line count of the file and [displayed_lines] the number of lines
    returned.  The defaults are [o = 0] and [l = 2000].  A path at which
    nothing exists gives an error object. *)
Theorem read_file_window
    (h : host) (file_path : jstring) (o l : Z) (w : World) :
  (forall content c,
     fs w !! path_resolve h file_path = Some (File content) ->
     last content = Some c -> c <> 10 ->
     (0 <= o)%Z -> (0 < l)%Z ->
     let lines := split [10] content in
     let total := Z.of_nat (true_line_count content) in
     let shown := Z.max 0 (Z.min l (total - o)) in
     let selected := take (Z.to_nat shown) (drop (Z.to_nat o) lines) in
     Z.of_nat (length selected) = shown /\
     (forall i line, selected !! i = Some line ->
                     lines !! (Z.to_nat o + i)%nat = Some line) /\
     read_file h file_path (Some o) (Some l) w =
       VObject [ (js "content",
                  VString (join [10]
                             (imap (fun i line =>
                                      numbered (o + Z.of_nat i + 1) line)
                                   selected)));
                 (js "total_lines", VNumber total 0);
                 (js "displayed_lines", VNumber shown 0) ]) /\
  read_file h file_path None None w
    = read_file h file_path (Some 0%Z) (Some 2000%Z) w /\
  (fs w !! path_resolve h file_path = None ->
   read_file h file_path (Some o) (Some l) w
     = error_result (js "File not found: " ++ file_path)).
Proof.
  split; [|split].
  - intros content c Hfile Hlast Hc Ho Hl lines total shown selected.
    destruct (exists_file _ _ _ _ Hfile) as [He Hr].
    assert (Hlen : Z.of_nat (length lines) = total).
    { unfold lines, total.
      rewrite split_lines_length, split_count_lines, Hlast.
      rewrite decide_False by done. f_equal. lia. }
    assert (Hsel : array_slice lines o (o + l) = selected).
    { unfold selected, shown. rewrite <- Hlen. by apply array_slice_window. }
    split; [|split].
    + rewrite <- Hsel, slice_length by done. unfold shown. by rewrite Hlen.
    + intros i line Hi. unfold selected in Hi.
      apply lookup_take_Some in Hi as [Hi _]. by rewrite lookup_drop in Hi.
    + rewrite (read_file_on_file _ _ _ _ _ _ Hfile).
      change (split [10] content) with lines. cbv zeta. rewrite Hsel.
      assert (Hshown : Z.of_nat (length selected) = shown).
      { rewrite <- Hsel, slice_length by done. unfold shown. by rewrite Hlen. }
      rewrite Hlen, Hshown. do 5 f_equal.
      apply imap_ext. intros i line _. f_equal. lia.
  - reflexivity.
  - intros Hnone. unfold read_file, existsSync. by rewrite Hnone.
Qed.

Lemma read_file_window_witness :
  read_file sample_host (js "/ten.txt") (Some 3%Z) (Some 2%Z)
    (one_file (js "/ten.txt") (js "l1
l2
l3
l4
l5
l6
l7
l8
l9
l10"))
  = VObject [ (js "content", VString (js "     4  l4
     5  l5"));
              (js "total_lines", VNumber 10 0);
              (js "displayed_lines", VNumber 2 0) ].
Proof.
  destruct (read_file_window sample_host (js "/ten.txt") 3 2
              (one_file (js "/ten.txt") (js "l1
l2
l3
l4
l5
l6
l7
l8
l9
l10"))) as [H _].
  destruct (H _ 48 eq_refl eq_refl ltac:(done) ltac:(lia) ltac:(lia))
    as (_ & _ & ->).
  reflexivity.
Defined.

(** C7, as it is worded, fails in two places.  At an offset beyond the
    end: a one-line file read from offset 5 with limit 2 shows no line,
    while [min(l, total - o)] is [-4].  On a file that ends in a line
    feed: the two lines [x] and [y], each with its line feed, are reported
    as three, and an empty third line is shown. *)
Lemma read_file_offset_beyond_end :
  (read_file sample_host (js "/a.txt") (Some 5%Z) (Some 2%Z)
             (one_file (js "/a.txt") (js "only line"))
   = VObject [ (js "content", VString []);
               (js "total_lines", VNumber 1 0);
               (js "displayed_lines", VNumber 0 0) ]
   /\ Z.min 2 (Z.of_nat (true_line_count (js "only line")) - 5) = (-4)%Z
   /\ 0%Z <> Z.min 2 (Z.of_nat (true_line_count (js "only line")) - 5))
  /\
  (read_file sample_host (js "/b.txt") (Some 0%Z) (Some 2000%Z)
             (one_file (js "/b.txt") (js "x" ++ [10] ++ js "y" ++ [10]))
   = VObject [ (js "content",
                VString (js "     1  x" ++ [10] ++ js "     2  y" ++ [10]
                         ++ js "     3  "));
               (js "total_lines", VNumber 3 0);
               (js "displayed_lines", VNumber 3 0) ]
   /\ true_line_count (js "x" ++ [10] ++ js "y" ++ [10]) = 2%nat).
Proof.
  split; [split; [reflexivity | split; [reflexivity | done]]|].
  split; reflexivity.
Qed.

End ToolFacts.

(** ** The dispatcher *)

Module DispatcherFacts.

Lemma ToString_string h s : ToString h (VString s) = Normal s.
Proof. reflexivity. Qed.

(** Arguments given as text that is not JSON: the error of [JSON.parse]
    leaves [processToolCall]. *)
Lemma processToolCall_parse_error h name text e w :
  JSON_parse text = Throw e ->
  processToolCall h name (VString text) w = (Throw e, w).
Proof. intros H. unfold processToolCall. by rewrite H. Qed.

(** C2. Handed the argument text [{], which is not JSON, the dispatcher
    does not return an error object: it throws the syntax error of
    [JSON.parse], whatever the tool name. *)
Theorem processToolCall_throws_on_malformed_arguments
    (h : host) (name : value) (w : World) :
  processToolCall h name (VString (js "{")) w
  = (Throw (SyntaxError (js "{")), w).
Proof. by apply processToolCall_parse_error. Qed.

(** A name that is neither a tool nor a key of [Object.prototype] gets
    the unknown-tool error and the world is left alone. *)
Lemma processToolCall_unknown h name args parsedArgs w :
  parsed_arguments args parsedArgs ->
  name ∉ tool_names -> name ∉ object_prototype_names ->
  processToolCall h (VString name) args w
  = (Normal (error_result (js "Unknown tool: " ++ name)), w).
Proof.
  intros Hargs H1 H2. unfold processToolCall.
  assert (match args with
          | VString text => JSON_parse text
          | _ => Normal args
          end = Normal parsedArgs) as ->.
  { destruct args; simpl in Hargs; by subst. }
  rewrite ToString_string. unfold toolImplementations_get.
  by rewrite decide_False, decide_False.
Qed.

(** A name that cannot be made a property key: the error of the
    conversion leaves [processToolCall], the lookup being outside the
    [try]. *)
Lemma processToolCall_name_error h name args parsedArgs e w :
  parsed_arguments args parsedArgs ->
  ToString h name = Throw e ->
  processToolCall h name args w = (Throw e, w).
Proof.
  intros Hargs Hn. unfold processToolCall.
  assert (match args with
          | VString text => JSON_parse text
          | _ => Normal args
          end = Normal parsedArgs) as ->.
  { destruct args; simpl in Hargs; by subst. }
  by rewrite Hn.
Qed.

(** Past parsing and the lookup, nothing is thrown: what an
    implementation throws comes back as an error object. *)
Lemma processToolCall_catches h name key args parsedArgs w :
  parsed_arguments args parsedArgs ->
  ToString h name = Normal key ->
  exists r w', processToolCall h name args w = (Normal r, w').
Proof.
  intros Hargs Hn. unfold processToolCall.
  assert (match args with
          | VString text => JSON_parse text
          | _ => Normal args
          end = Normal parsedArgs) as ->.
  { destruct args; simpl in Hargs; by subst. }
  rewrite Hn.
  destruct (toolImplementations_get key) as [m|]; [|by eauto].
  destruct (call_member h m parsedArgs w) as [[r|e] w']; by eauto.
Qed.

Lemma processToolCall_caught h name key args parsedArgs m e w w' :
  parsed_arguments args parsedArgs ->
  ToString h name = Normal key ->
  toolImplementations_get key = Some m ->
  call_member h m parsedArgs w = (Throw e, w') ->
  processToolCall h name args w
  = (Normal (error_result (js "Tool execution error: " ++ message_of h e)), w').
Proof.
  intros Hargs Hn Hm He. unfold processToolCall.
  assert (match args with
          | VString text => JSON_parse text
          | _ => Normal args
          end = Normal parsedArgs) as ->.
  { destruct args; simpl in Hargs; by subst. }
  by rewrite Hn, Hm, He.
Qed.

(** A dispatcher that returned had a name it could convert. *)
Lemma processToolCall_returned h name args r w w' :
  processToolCall h name args w = (Normal r, w') ->
  ToString h name = Normal (text_of h name).
Proof.
  unfold processToolCall, ToString.
  destruct (match args with
            | VString text => JSON_parse text
            | _ => Normal args
            end); [|done].
  by destruct (not_convertible name).
Qed.

(** A key of [Object.prototype] is found by the lookup: the name
    [toString] is not reported as unknown, the inherited method is
    called. *)
Lemma processToolCall_inherited h w :
  processToolCall h (VString (js "toString")) (VObject []) w
  = (match object_prototype_call h (js "toString") (VObject []) with
     | Normal r => Normal r
     | Throw e =>
         Normal (error_result (js "Tool execution error: " ++ message_of h e))
     end, w).
Proof.
  unfold processToolCall. simpl.
  by destruct (object_prototype_call h (js "toString") (VObject [])).
Qed.

(** Through the dispatcher, a forbidden command is refused as by the tool
    itself. *)
Lemma processToolCall_execute_command_forbidden h command forbidden w :
  forbidden ∈ forbiddenCommands -> occurs forbidden command ->
  processToolCall h (VString (js "execute_command"))
                  (VObject [(js "command", VString command)]) w
  = (Normal (error_result
               (js "Command not allowed for security reasons: " ++ command)),
     w).
Proof.
  intros Hin Hocc. unfold processToolCall. simpl. unfold execute_command.
  by destruct (ToolFacts.first_forbidden_Some _ _ _ Hin Hocc) as [f ->].
Qed.

End DispatcherFacts.

(** ** The stream decoder *)

Module DecoderFacts.

(** A frame without a line feed, followed by a blank line, is cut off as
    one piece. *)
Lemma split_go_frame f rest cur :
  10 ∉ f ->
  split_go [10; 10] (f ++ [10; 10] ++ rest) 0 cur
  = (cur ++ f) :: split_go [10; 10] rest 0 [].
Proof.
  revert cur; induction f as [|c f IH]; intros cur Hf.
  - by rewrite app_nil_r.
  - apply not_elem_of_cons in Hf as [Hc Hf].
    cbn [app split_go startsWith].
    destruct (N.eqb_spec 10 c) as [E|_]; [by destruct Hc|].
    cbn [andb]. rewrite IH by done. by rewrite <- app_assoc.
Qed.

Lemma split_stream_of frames :
  Forall (fun f => 10 ∉ f) frames ->
  split [10; 10] (stream_of frames) = frames ++ [[]].
Proof.
  unfold split. induction 1 as [|f frames Hf _ IH]; [done|].
  unfold stream_of. rewrite fmap_cons, concat_cons, <- app_assoc.
  rewrite split_go_frame by done. cbn [app]. f_equal. exact IH.
Qed.

Lemma decode_line_empty acc : decode_line acc [] = acc.
Proof. done. Qed.

(** A chunk made of whole frames is decoded frame by frame. *)
Lemma decode_chunk_frames acc frames :
  Forall (fun f => 10 ∉ f) frames ->
  decode_chunk acc (stream_of frames) = fold_left decode_line frames acc.
Proof.
  intros H. unfold decode_chunk. rewrite split_stream_of by done.
  by rewrite fold_left_app.
Qed.

Lemma read_loop_values chunks acc :
  read_loop (ReadValue <$> chunks) acc
  = ((fold_left decode_chunk chunks acc).1,
     Normal (fold_left decode_chunk chunks acc).2).
Proof.
  revert acc; induction chunks as [|c chunks IH]; intros acc; [done|].
  apply IH.
Qed.

Lemma decode_groups acc groups :
  Forall (Forall (fun f => 10 ∉ f)) groups ->
  fold_left decode_chunk (stream_of <$> groups) acc
  = fold_left decode_line (concat groups) acc.
Proof.
  intros H; revert acc; induction H as [|g groups Hg _ IH]; intros acc; [done|].
  rewrite fmap_cons, concat_cons, fold_left_app. cbn [fold_left].
  by rewrite decode_chunk_frames, IH.
Qed.

Lemma stream_of_concat groups :
  concat (stream_of <$> groups) = stream_of (concat groups).
Proof.
  unfold stream_of. induction groups as [|g groups IH]; [done|].
  by rewrite fmap_cons, !concat_cons, fmap_app, concat_app, IH.
Qed.

Lemma well_formed_no_line_feed frames :
  Forall well_formed_frame frames -> Forall (fun f => 10 ∉ f) frames.
Proof. intros H. eapply Forall_impl; [exact H|]. by intros f [_ Hf]. Qed.

(** What is returned is what was written, put together. *)
Lemma decode_line_accumulates acc line :
  acc.2 = concat acc.1 ->
  (decode_line acc line).2 = concat (decode_line acc line).1.
Proof.
  intros H. unfold decode_line.
  destruct (startsWith (js "data:") line); [|done].
  destruct (decide _); [done|].
  destruct (delta_content _) as [[content|]|e]; try done.
  cbn [fst snd]. rewrite concat_app, H. simpl. by rewrite app_nil_r.
Qed.

Lemma decode_accumulates chunks :
  (decode chunks).2 = Normal (concat (decode chunks).1).
Proof.
  unfold decode. rewrite read_loop_values. cbn [fst snd]. f_equal.
  assert (forall lines acc,
            acc.2 = concat acc.1 ->
            (fold_left decode_line lines acc).2
            = concat (fold_left decode_line lines acc).1) as Hlines.
  { induction lines as [|l lines IH]; intros acc H; [done|].
    apply IH. by apply decode_line_accumulates. }
  assert (forall cs acc,
            acc.2 = concat acc.1 ->
            (fold_left decode_chunk cs acc).2
            = concat (fold_left decode_chunk cs acc).1) as Hchunks.
  { induction cs as [|c cs IH]; intros acc H; [done|].
    apply IH. by apply Hlines. }
  by apply Hchunks.
Qed.

(** C3, as the code has it.  For frames that each sit on one line and are
    each followed by a blank line, and for reads that each deliver whole
    frames (every read ends where a frame ends), the reads make up the
    stream, and the decoder writes the same increments in the same order
    and returns the same text as when the stream arrives in one read. *)
Theorem decode_frame_aligned_reads (groups : list (list jstring)) :
  Forall (Forall well_formed_frame) groups ->
  concat (stream_of <$> groups) = stream_of (concat groups) /\
  decode (stream_of <$> groups) = decode [stream_of (concat groups)].
Proof.
  intros H. split; [apply stream_of_concat|].
  unfold decode. rewrite !read_loop_values.
  assert (Forall (Forall (fun f => 10 ∉ f)) groups) as H'.
  { eapply Forall_impl; [exact H|]. apply well_formed_no_line_feed. }
  rewrite decode_groups by done. cbn [fold_left].
  rewrite decode_chunk_frames; [done|]. by apply Forall_concat.
Qed.

Lemma well_formed_Hel : well_formed_frame frame_Hel.
Proof.
  split; [reflexivity | apply (bool_decide_unpack _); vm_compute; exact I].
Qed.
Lemma well_formed_lo : well_formed_frame frame_lo.
Proof.
  split; [reflexivity | apply (bool_decide_unpack _); vm_compute; exact I].
Qed.
Lemma well_formed_DONE : well_formed_frame frame_DONE.
Proof.
  split; [reflexivity | apply (bool_decide_unpack _); vm_compute; exact I].
Qed.

Lemma decode_frame_aligned_reads_witness :
  concat (stream_of <$> [[frame_Hel]; [frame_lo; frame_DONE]])
  = stream_of (concat [[frame_Hel]; [frame_lo; frame_DONE]]) /\
  decode (stream_of <$> [[frame_Hel]; [frame_lo; frame_DONE]])
  = decode [stream_of (concat [[frame_Hel]; [frame_lo; frame_DONE]])].
Proof.
  apply (decode_frame_aligned_reads [[frame_Hel]; [frame_lo; frame_DONE]]).
  repeat constructor;
    first [apply well_formed_Hel | apply well_formed_lo | apply well_formed_DONE].
Defined.

(** The example of the specification, in one read. *)
Example decode_Hello :
  decode [stream_of [frame_Hel; frame_lo; frame_DONE]]
  = ([js "Hel"; js "lo"], Normal (js "Hello")).
Proof. vm_compute. reflexivity. Qed.

(** C3, as it is worded, on a frame cut by a read boundary: the stream of
    the example delivered in two reads, the first of which ends inside the
    second frame.  The second frame is lost. *)
Lemma decode_frame_cut_by_read :
  first_read ++ second_read = stream_of [frame_Hel; frame_lo; frame_DONE] /\
  decode [stream_of [frame_Hel; frame_lo; frame_DONE]]
  = ([js "Hel"; js "lo"], Normal (js "Hello")) /\
  decode [first_read; second_read] = ([js "Hel"], Normal (js "Hel")) /\
  decode [first_read; second_read]
  <> decode [stream_of [frame_Hel; frame_lo; frame_DONE]].
Proof.
  split; [reflexivity|]. split; [vm_compute; reflexivity|].
  split; [vm_compute; reflexivity|]. vm_compute. discriminate.
Qed.







End DecoderFacts.

(** ** The orchestrator *)

Module OrchestratorFacts.

Section Facts.
Variable h : host.
Variable args : argv.

Lemma get_truthy v k : truthy v = true -> exists x, get v k = Normal x.
Proof.
  destruct v; try done; intros _; simpl; try by eauto.
  - destruct (decide _); [by eauto|].
    destruct (array_index k) as [i|]; [|by eauto].
    destruct (s !! i); by eauto.
  - destruct (decide _); [by eauto|].
    destruct (array_index k); by eauto.
Qed.

(** Where a tool call is found, the content of its message can be read. *)
Lemma function_call_content data functionCall :
  function_call_of data = Normal functionCall ->
  truthy functionCall = true ->
  exists content, message_content data = Normal content.
Proof.
  unfold function_call_of, message_content. intros H Ht.
  destruct (get data (js "choices")) as [choices|] eqn:E1; [|done].
  cbn [bind] in *.
  destruct (truthy choices) eqn:Ec; [|injection H as <-; congruence].
  destruct (get choices (js "0")) as [choice|]; [|done]. cbn [bind] in *.
  destruct (get choice (js "message")) as [m|]; [|done]. cbn [bind] in *.
  destruct (truthy m) eqn:Em; [by apply get_truthy|].
  injection H as <-. congruence.
Qed.

(** One remote call: either a tool ran and the call is what the next call
    on the extended messages is, or the call is over with the messages as
    they were. *)
Lemma callGeminiAPI_step reply script so st :
  let stream := default (argv_stream args) so in
  (exists r data functionCall content toolResult w',
     stream = false /\ reply = FetchResponse r /\
     tool_call_response r data functionCall /\
     message_content data = Normal content /\
     processToolCall h (prop functionCall (js "name"))
                     (prop functionCall (js "arguments")) (world st)
       = (Normal toolResult, w') /\
     callGeminiAPI h args (reply :: script) so st
     = callGeminiAPI h args script (Some false)
         (after_tool h stream content functionCall toolResult w' st))
  \/
  (exists v st',
     callGeminiAPI h args (reply :: script) so st = (Answered v, st', script) /\
     messages st' = messages st /\
     requests st' = requests st ++ [mkRequest (messages st) stream]).
Proof.
  intros stream. cbn [callGeminiAPI]. fold stream.
  destruct reply as [e|r]; [right; by eauto|].
  destruct (ok r) eqn:Hok; cbn [negb]; [|right; by eauto].
  destruct stream eqn:Hs.
  { destruct (body r) as [[|reads]|]; [right; by eauto| |right; by eauto].
    destruct (read_loop reads ([], [])) as [written [text|e]];
      right; by eauto. }
  destruct (json r) as [data|e] eqn:Hj; [|right; by eauto].
  destruct (function_call_of data) as [functionCall|e] eqn:Hf;
    [|right; by eauto].
  destruct (truthy functionCall) eqn:Ht.
  2:{ destruct (message_content data); right; by eauto. }
  unfold ToString.
  destruct (not_convertible (prop functionCall (js "name")));
    [right; by eauto|].
  cbn [world print with_world sent].
  destruct (processToolCall h _ _ (world st)) as [[toolResult|e] w'] eqn:Hp;
    [|right; by eauto].
  destruct (function_call_content _ _ Hf Ht) as [content Hc]. rewrite Hc.
  left. exists r, data, functionCall, content, toolResult, w'.
  repeat split; try done.
  unfold after_tool.
  by destruct (callGeminiAPI h args script (Some false) _) as [[a st'] rest].
Qed.

Lemma callGeminiAPI_awaiting so st :
  callGeminiAPI h args [] so st
  = (Awaiting, sent (default (argv_stream args) so) st, []).
Proof. done. Qed.

(** The calls of one [callGeminiAPI] form a chain. *)
Lemma callGeminiAPI_chain script so st :
  exists new,
    requests (callGeminiAPI h args script so st).1.2 = requests st ++ new /\
    tool_chain h (default (argv_stream args) so) (messages st) new
               (messages (callGeminiAPI h args script so st).1.2).
Proof.
  revert so st; induction script as [|reply script IH]; intros so st.
  - rewrite callGeminiAPI_awaiting. eexists. split; [done|]. constructor.
  - destruct (callGeminiAPI_step reply script so st)
      as [(r & data & fc & content & toolResult & w' & Hs & _ & Hr & _ & Hp & ->)
         |(v & st' & -> & Hm & Hq)].
    + destruct (IH (Some false) (after_tool h (default (argv_stream args) so)
                                   content fc toolResult w' st))
        as (new & Hq & Hch).
      rewrite Hs in *. cbn [after_tool push print with_world sent requests
                            messages default] in Hq, Hch.
      exists (mkRequest (messages st) false :: new). split.
      * rewrite Hq. by rewrite <- app_assoc.
      * rewrite <- app_assoc in Hch. destruct Hr as (_ & _ & _ & Ht).
        by eapply chain_tool.
    + cbn [fst snd]. rewrite Hm. eexists. split; [exact Hq|]. constructor.
Qed.

(** A streaming response: what [callGeminiAPI] writes and returns is what
    the decoder makes of the reads. *)
Lemma callGeminiAPI_streaming r chunks written text script so st :
  default (argv_stream args) so = true ->
  ok r = true ->
  body r = Some (ReadableStream (ReadValue <$> chunks)) ->
  decode chunks = (written, Normal text) ->
  callGeminiAPI h args (FetchResponse r :: script) so st
  = (Answered (VString text),
     print [ConsoleLog None (VString [10])]
       (print (StdoutWrite <$> written) (sent true st)),
     script).
Proof.
  intros Hs Hok Hb Hd. cbn [callGeminiAPI]. rewrite Hs, Hok, Hb.
  cbn [negb]. unfold decode in Hd. by rewrite Hd.
Qed.

(** *** The history invariant *)

Lemma justified_nil : justified [].
Proof. intros i m H. by rewrite lookup_nil in H. Qed.

Lemma justified_snoc history m :
  justified history -> msg_role m <> function -> justified (history ++ [m]).
Proof.
  intros Hj Hm i x Hi Hx.
  destruct (decide (i < length history)%nat) as [Hlt|Hge].
  - rewrite lookup_app_l in Hi by done.
    destruct (Hj i x Hi Hx) as (j & a & fc & Hji & Ha & ?).
    exists j, a, fc. split; [done|]. split; [|done].
    rewrite lookup_app_l; [done | lia].
  - rewrite lookup_app_r in Hi by lia.
    destruct (i - length history)%nat; [|done].
    injection Hi as <-. done.
Qed.

Lemma justified_tool_pair history content functionCall toolResult :
  justified history ->
  justified (history ++ [ tool_call_message content functionCall;
                          tool_result_message h functionCall toolResult ]).
Proof.
  intros Hj.
  change [tool_call_message content functionCall;
          tool_result_message h functionCall toolResult]
    with ([tool_call_message content functionCall]
          ++ [tool_result_message h functionCall toolResult]).
  rewrite app_assoc.
  intros i x Hi Hx.
  destruct (decide (i < length (history ++ [tool_call_message content functionCall]))%nat)
    as [Hlt|Hge].
  - rewrite lookup_app_l in Hi by done.
    destruct (justified_snoc history (tool_call_message content functionCall)
                Hj ltac:(done) i x Hi Hx) as (j & a & fc & Hji & Ha & ?).
    exists j, a, fc. split; [done|]. split; [|done].
    rewrite lookup_app_l; [done | lia].
  - rewrite lookup_app_r in Hi by lia.
    destruct (i - length _)%nat eqn:E; [|done].
    injection Hi as <-.
    exists (length history), (tool_call_message content functionCall),
           functionCall.
    rewrite length_app in *. cbn [length] in *.
    split; [lia|]. split; [|done].
    rewrite lookup_app_l by (rewrite length_app; cbn [length]; lia).
    by rewrite lookup_app_r, Nat.sub_diag by lia.
Qed.

Lemma tool_chain_justified stream ms new final :
  tool_chain h stream ms new final ->
  justified ms ->
  justified final /\ Forall (fun q => justified (req_messages q)) new.
Proof.
  induction 1 as [stream ms|ms content fc r w w' later final _ _ _ IH];
    intros Hj.
  - split; [done|]. by constructor.
  - destruct (IH (justified_tool_pair _ _ _ _ Hj)) as [Hf Hl].
    split; [done|]. by constructor.
Qed.

Lemma callGeminiAPI_justified script so st :
  justified (messages st) ->
  Forall (fun q => justified (req_messages q)) (requests st) ->
  justified (messages (callGeminiAPI h args script so st).1.2) /\
  Forall (fun q => justified (req_messages q))
         (requests (callGeminiAPI h args script so st).1.2).
Proof.
  intros Hm Hq. destruct (callGeminiAPI_chain script so st) as (new & -> & Hch).
  destruct (tool_chain_justified _ _ _ _ Hch Hm) as [Hf Hn].
  split; [done|]. by apply Forall_app.
Qed.

Lemma on_line_justified line script st :
  justified (messages st) ->
  Forall (fun q => justified (req_messages q)) (requests st) ->
  justified (messages (on_line h args line script st).1.2) /\
  Forall (fun q => justified (req_messages q))
         (requests (on_line h args line script st).1.2).
Proof.
  intros Hm Hq. unfold on_line.
  destruct (toLowerCase_is_exit (trim line)); [done|].
  destruct (trim line) as [|c userInput]; [done|].
  pose proof (callGeminiAPI_justified script None
                (push (user_message (c :: userInput)) st)) as H.
  destruct (callGeminiAPI h args script None _) as [[[response|] st'] rest];
    cbn [fst snd] in *.
  - destruct H as [H1 H2]; [by apply justified_snoc | done |].
    destruct (truthy response); [|done].
    split; [|done]. by apply justified_snoc.
  - apply H; [by apply justified_snoc | done].
Qed.

Lemma session_justified lines script st :
  justified (messages st) ->
  Forall (fun q => justified (req_messages q)) (requests st) ->
  justified (messages (session h args lines script st).1.2) /\
  Forall (fun q => justified (req_messages q))
         (requests (session h args lines script st).1.2).
Proof.
  revert script st; induction lines as [|line lines IH]; intros script st Hm Hq.
  - done.
  - cbn [session].
    pose proof (on_line_justified line script st Hm Hq) as H.
    destruct (on_line h args line script st) as [[[| |] st'] rest];
      cbn [fst snd] in *; [|done|done].
    apply IH; apply H.
Qed.

Lemma callGeminiAPI_tool r data functionCall content toolResult w' script so st :
  default (argv_stream args) so = false ->
  tool_call_response r data functionCall ->
  message_content data = Normal content ->
  processToolCall h (prop functionCall (js "name"))
                  (prop functionCall (js "arguments")) (world st)
    = (Normal toolResult, w') ->
  callGeminiAPI h args (FetchResponse r :: script) so st
  = callGeminiAPI h args script (Some false)
      (after_tool h false content functionCall toolResult w' st).
Proof.
  intros Hs (Hok & Hj & Hf & Ht) Hc Hp.
  cbn [callGeminiAPI]. rewrite Hs, Hok, Hj, Hf, Ht.
  rewrite (DispatcherFacts.processToolCall_returned _ _ _ _ _ _ Hp).
  cbn [negb world print with_world sent]. rewrite Hp, Hc.
  unfold after_tool.
  by destruct (callGeminiAPI h args script (Some false) _) as [[a st'] rest].
Qed.

(** Every call begins with a request on the messages as they stand. *)
Lemma callGeminiAPI_first_request script so st :
  exists later,
    requests (callGeminiAPI h args script so st).1.2
    = requests st
      ++ mkRequest (messages st) (default (argv_stream args) so) :: later.
Proof.
  destruct (callGeminiAPI_chain script so st) as (new & -> & Hch).
  destruct Hch; by eauto.
Qed.

(** C4, as the code has it.  When a non-streaming response carries a
    tool-call request and the dispatcher returns a result for it, the
    history grows by exactly two messages before the next remote call:
    first the assistant message with the content of the response and the
    tool call, then the message of role [function] with the name of the
    tool and the serialised result; the next remote call is the one
    issued on the history grown in this way.  All the calls of a turn are
    linked like that, from the first to the last; so, in a session that
    starts on an empty history, the history after any number of lines,
    and the messages every remote call was issued on, have each
    tool-result message preceded by an assistant message whose tool call
    names the same tool. *)
Theorem tool_call_appends_call_then_result :
  (forall r data functionCall content toolResult w' script so st,
     default (argv_stream args) so = false ->
     tool_call_response r data functionCall ->
     message_content data = Normal content ->
     processToolCall h (prop functionCall (js "name"))
                     (prop functionCall (js "arguments")) (world st)
       = (Normal toolResult, w') ->
     let grown :=
       messages st
       ++ [ mkMessage assistant content (Some functionCall) None;
            mkMessage function (JSON_stringify h toolResult false) None
                      (Some (prop functionCall (js "name"))) ] in
     callGeminiAPI h args (FetchResponse r :: script) so st
     = callGeminiAPI h args script (Some false)
         (after_tool h false content functionCall toolResult w' st) /\
     messages (after_tool h false content functionCall toolResult w' st)
     = grown /\
     world (after_tool h false content functionCall toolResult w' st) = w' /\
     exists later,
       requests (callGeminiAPI h args (FetchResponse r :: script) so st).1.2
       = requests st
         ++ mkRequest (messages st) false :: mkRequest grown false :: later) /\
  (forall script so st,
     exists new,
       requests (callGeminiAPI h args script so st).1.2 = requests st ++ new /\
       tool_chain h (default (argv_stream args) so) (messages st) new
                  (messages (callGeminiAPI h args script so st).1.2)) /\
  (forall lines script st,
     messages st = [] -> requests st = [] ->
     justified (messages (session h args lines script st).1.2) /\
     Forall (fun q => justified (req_messages q))
            (requests (session h args lines script st).1.2)).
Proof.
  split; [|split; [apply callGeminiAPI_chain|]].
  - intros r data functionCall content toolResult w' script so st Hs Hr Hc Hp
      grown.
    assert (messages (after_tool h false content functionCall toolResult w' st)
            = grown) as Hm.
    { cbn [after_tool push print with_world sent messages]. unfold grown.
      by rewrite <- app_assoc. }
    split; [exact (callGeminiAPI_tool _ _ _ _ _ _ _ _ _ Hs Hr Hc Hp)|].
    split; [done|]. split; [done|].
    rewrite (callGeminiAPI_tool _ _ _ _ _ _ _ _ _ Hs Hr Hc Hp).
    destruct (callGeminiAPI_first_request script (Some false)
                (after_tool h false content functionCall toolResult w' st))
      as [later Hq].
    exists later. rewrite Hq, Hm.
    cbn [after_tool push print with_world sent requests default].
    by rewrite <- app_assoc.
  - intros lines script st Hm Hq. apply session_justified.
    + rewrite Hm. apply justified_nil.
    + rewrite Hq. constructor.
Qed.

(** *** A turn cut short *)

Lemma callGeminiAPI_failure reply script so st :
  transport_failure reply ->
  exists st',
    callGeminiAPI h args (reply :: script) so st = (Answered VNull, st', script)
    /\ messages st' = messages st.
Proof.
  intros Hf. cbn [callGeminiAPI]. destruct reply as [e|r]; [by eauto|].
  simpl in Hf. rewrite Hf. cbn [negb]. by eauto.
Qed.

Lemma tool_turn_aborted r data functionCall toolResult w' reply script so st :
  default (argv_stream args) so = false ->
  tool_call_response r data functionCall ->
  processToolCall h (prop functionCall (js "name"))
                  (prop functionCall (js "arguments")) (world st)
    = (Normal toolResult, w') ->
  transport_failure reply ->
  exists content st',
    message_content data = Normal content /\
    callGeminiAPI h args (FetchResponse r :: reply :: script) so st
    = (Answered VNull, st', script) /\
    messages st' = messages st ++ [ tool_call_message content functionCall;
                                    tool_result_message h functionCall toolResult ].
Proof.
  intros Hs Hr Hp Hfail.
  destruct (function_call_content data functionCall) as [content Hc];
    [apply Hr | apply Hr |].
  exists content.
  rewrite (callGeminiAPI_tool _ _ _ _ _ _ _ _ _ Hs Hr Hc Hp).
  destruct (callGeminiAPI_failure reply script (Some false)
              (after_tool h false content functionCall toolResult w' st) Hfail)
    as (st' & -> & Hm).
  exists st'. repeat split; [done|]. rewrite Hm.
  cbn [after_tool push print with_world sent messages].
  by rewrite <- app_assoc.
Qed.

(** C10. A turn in which a tool ran and the next remote call fails ends
    without an answer, and the assistant message with the tool call and
    the tool-result message pushed earlier in the turn stay in the
    history, after the user message and with no assistant message to
    close the turn. *)
Theorem aborted_turn_keeps_tool_messages
    (line : jstring) (r : response) (data functionCall toolResult : value)
    (w' : World) (reply : fetch_result) (script : list fetch_result)
    (st : state) :
  argv_stream args = false ->
  trim line <> [] ->
  toLowerCase_is_exit (trim line) = false ->
  tool_call_response r data functionCall ->
  processToolCall h (prop functionCall (js "name"))
                  (prop functionCall (js "arguments")) (world st)
    = (Normal toolResult, w') ->
  transport_failure reply ->
  exists content st',
    (callGeminiAPI h args (FetchResponse r :: reply :: script) None
                   (push (user_message (trim line)) st)).1.1 = Answered VNull /\
    on_line h args line (FetchResponse r :: reply :: script) st
    = (Prompted, st', script) /\
    messages st' = messages st ++ [ user_message (trim line);
                                    tool_call_message content functionCall;
                                    tool_result_message h functionCall toolResult ].
Proof.
  intros Hs Hne Hexit Hr Hp Hfail.
  destruct (tool_turn_aborted r data functionCall toolResult w' reply script
              None (push (user_message (trim line)) st) Hs Hr Hp Hfail)
    as (content & st' & _ & Hcall & Hm).
  exists content, (print [Prompt] st').
  unfold on_line. rewrite Hexit.
  destruct (trim line) as [|c userInput] eqn:E; [done|].
  rewrite Hcall. cbn [fst truthy]. repeat split.
  cbn [print messages]. rewrite Hm. cbn [push messages].
  by rewrite <- app_assoc.
Qed.

(** *** Start-up *)

Lemma main_probe_unreadable reply script st :
  probe_unreadable reply ->
  main h args (health_probe reply) script st
  = (Exited 1,
     print [ ConsoleError (Some red)
               (js "Error: Cannot connect to proxy server at "
                ++ PROXY_URL args);
             ConsoleError (Some red)
               (js "Please start the proxy server first with: npm run start-proxy") ]
       (print [ Logo;
                ConsoleLog (Some yellow)
                  (VString (js "Using model: " ++ argv_model args));
                ConsoleLog (Some yellow)
                  (VString (js "Streaming: "
                            ++ (if argv_stream args then js "enabled"
                                else js "disabled")));
                ConsoleLog (Some yellow)
                  (VString (jsq "Type 'exit' or press Ctrl+C to quit"
                            ++ [10])) ]
          st),
     script).
Proof.
  unfold main, startCLI, health_probe.
  destruct reply as [e|r]; [done|]. simpl.
  destruct (json r) as [healthData|e]; [|done]. by intros ->.
Qed.

Lemma main_uninitialized healthData v script st :
  get healthData (js "api_initialized") = Normal v ->
  truthy v = false ->
  argv_file args = None ->
  main h args (ProbeResponse (Normal healthData)) script st
  = (Interactive,
     print [Prompt]
       (with_messages []
          (print [ ConsoleError (Some red)
                     (js "Warning: Gemini API not properly initialized at the proxy server.");
                   ConsoleError (Some red)
                     (js "Please check that GEMINI_API_KEY is set in the .env file.") ]
             (print [ Logo;
                      ConsoleLog (Some yellow)
                        (VString (js "Using model: " ++ argv_model args));
                      ConsoleLog (Some yellow)
                        (VString (js "Streaming: "
                                  ++ (if argv_stream args then js "enabled"
                                      else js "disabled")));
                      ConsoleLog (Some yellow)
                        (VString (jsq "Type 'exit' or press Ctrl+C to quit"
                                  ++ [10])) ]
                st))),
     script).
Proof.
  intros Hg Hv Hf. unfold main, startCLI. cbn [bind]. by rewrite Hg, Hv, Hf.
Qed.

(** C9, as the code has it.  The process ends with exit status 1, after
    the message that the proxy cannot be reached and before any other
    request, when the health probe has no answer that can be read: the
    request is rejected, or the body of the answer is not JSON or is
    [null].  An answer with [api_initialized] false, or without it, makes
    the host print a warning that points at GEMINI_API_KEY; the host goes
    on and, no file being given, puts up the prompt of the interactive
    session. *)
Theorem startup_health_probe
    (reply : fetch_result) (script : list fetch_result) (st : state) :
  (probe_unreadable reply ->
   (main h args (health_probe reply) script st).1.1 = Exited 1 /\
   ConsoleError (Some red)
     (js "Error: Cannot connect to proxy server at " ++ PROXY_URL args)
     ∈ console (main h args (health_probe reply) script st).1.2 /\
   requests (main h args (health_probe reply) script st).1.2 = requests st) /\
  (forall healthCheck healthData v,
     reply = FetchResponse healthCheck ->
     json healthCheck = Normal healthData ->
     get healthData (js "api_initialized") = Normal v ->
     truthy v = false ->
     argv_file args = None ->
     (main h args (health_probe reply) script st).1.1 = Interactive /\
     ConsoleError (Some red)
       (js "Please check that GEMINI_API_KEY is set in the .env file.")
       ∈ console (main h args (health_probe reply) script st).1.2 /\
     Prompt ∈ console (main h args (health_probe reply) script st).1.2 /\
     messages (main h args (health_probe reply) script st).1.2 = []).
Proof.
  split.
  - intros Hu. rewrite (main_probe_unreadable _ _ _ Hu). cbn [fst snd].
    split; [done|]. cbn [print console requests]. split; [|done].
    rewrite !elem_of_app. right. set_solver.
  - intros healthCheck healthData v -> Hj Hg Hv Hf.
    cbn [health_probe]. rewrite Hj.
    rewrite (main_uninitialized _ _ _ _ Hg Hv Hf). cbn [fst snd].
    split; [done|]. cbn [print with_messages console messages].
    split; [|split; [|done]].
    + rewrite !elem_of_app. left. right. set_solver.
    + rewrite !elem_of_app. right. set_solver.
Qed.

End Facts.

Lemma tool_call_appends_call_then_result_witness :
  messages (after_tool sample_host false VNull read_file_call
              (error_result (js "File not found: /a.txt")) (mkWorld ∅ [])
              initial_state)
  = messages initial_state
    ++ [ mkMessage assistant VNull (Some read_file_call) None;
         mkMessage function
           (JSON_stringify sample_host
              (error_result (js "File not found: /a.txt")) false)
           None (Some (prop read_file_call (js "name"))) ].
Proof.
  apply (proj1 (tool_call_appends_call_then_result sample_host
                  sample_argv_no_stream)
               read_file_response
               (VObject
                  [ (js "choices",
                     VArray [ VObject [ (js "message",
                                         VObject [ (js "content", VNull);
                                                   (js "function_call",
                                                    read_file_call) ]) ] ]) ])
               read_file_call VNull
               (error_result (js "File not found: /a.txt")) (mkWorld ∅ [])
               [] None initial_state).
  - reflexivity.
  - repeat split; reflexivity.
  - reflexivity.
  - vm_compute. reflexivity.
Defined.

(** C4, as it is worded, on a tool call whose argument text is not JSON:
    the response carries a tool-call request, and the call ends without an
    answer, with the history as it was, after the one request; the reply
    that was to follow is not asked for. *)
Lemma tool_call_with_malformed_arguments :
  tool_call_response
    (call_response (js "read_file") (VString (js "{")))
    (VObject
       [ (js "choices",
          VArray [ VObject
                     [ (js "message",
                        VObject
                          [ (js "content", VNull);
                            (js "function_call",
                             VObject
                               [ (js "name", VString (js "read_file"));
                                 (js "arguments", VString (js "{")) ]) ]) ]
                 ]) ])
    (VObject [ (js "name", VString (js "read_file"));
               (js "arguments", VString (js "{")) ]) /\
  (callGeminiAPI sample_host sample_argv_no_stream
     [ FetchResponse (call_response (js "read_file") (VString (js "{")));
       FetchResponse (text_response (js "done")) ]
     None (push (user_message (js "read it")) initial_state)).1.1
  = Answered VNull /\
  messages
    (callGeminiAPI sample_host sample_argv_no_stream
       [ FetchResponse (call_response (js "read_file") (VString (js "{")));
         FetchResponse (text_response (js "done")) ]
       None (push (user_message (js "read it")) initial_state)).1.2
  = [user_message (js "read it")] /\
  requests
    (callGeminiAPI sample_host sample_argv_no_stream
       [ FetchResponse (call_response (js "read_file") (VString (js "{")));
         FetchResponse (text_response (js "done")) ]
       None (push (user_message (js "read it")) initial_state)).1.2
  = [mkRequest [user_message (js "read it")] false] /\
  (callGeminiAPI sample_host sample_argv_no_stream
     [ FetchResponse (call_response (js "read_file") (VString (js "{")));
       FetchResponse (text_response (js "done")) ]
     None (push (user_message (js "read it")) initial_state)).2
  = [FetchResponse (text_response (js "done"))].
Proof. repeat split; reflexivity. Qed.

Lemma aborted_turn_keeps_tool_messages_witness :
  exists content st',
    (callGeminiAPI sample_host sample_argv_no_stream
       (FetchResponse read_file_response
        :: FetchRejected (HostError (js "ECONNREFUSED")) :: []) None
       (push (user_message (trim (js "read it"))) initial_state)).1.1
    = Answered VNull /\
    on_line sample_host sample_argv_no_stream (js "read it")
      (FetchResponse read_file_response
       :: FetchRejected (HostError (js "ECONNREFUSED")) :: []) initial_state
    = (Prompted, st', []) /\
    messages st' =
      messages initial_state
      ++ [ user_message (trim (js "read it"));
           tool_call_message content read_file_call;
           tool_result_message sample_host read_file_call
             (error_result (js "File not found: /a.txt")) ].
Proof.
  apply (aborted_turn_keeps_tool_messages sample_host sample_argv_no_stream
           (js "read it") read_file_response
           (VObject
              [ (js "choices",
                 VArray [ VObject [ (js "message",
                                     VObject [ (js "content", VNull);
                                               (js "function_call",
                                                read_file_call) ]) ] ]) ])
           read_file_call (error_result (js "File not found: /a.txt"))
           (mkWorld ∅ []) (FetchRejected (HostError (js "ECONNREFUSED"))) []
           initial_state).
  - reflexivity.
  - vm_compute. discriminate.
  - reflexivity.
  - repeat split; reflexivity.
  - vm_compute. reflexivity.
  - exact I.
Defined.

Lemma startup_health_probe_witness :
  (main sample_host sample_argv
        (health_probe (FetchRejected (HostError (js "ECONNREFUSED"))))
        [] initial_state).1.1 = Exited 1.
Proof.
  apply (proj1 (startup_health_probe sample_host sample_argv
                  (FetchRejected (HostError (js "ECONNREFUSED"))) []
                  initial_state)).
  exact I.
Defined.

(** C9, as it is worded, on a probe that answers [api_initialized: false]:
    the warning is printed and the prompt of the interactive session is
    put up all the same. *)
Lemma startup_uninitialized_starts_session :
  (main sample_host sample_argv
        (ProbeResponse (Normal (VObject [(js "api_initialized", VBool false)])))
        [] initial_state).1.1 = Interactive /\
  console (main sample_host sample_argv
             (ProbeResponse
                (Normal (VObject [(js "api_initialized", VBool false)])))
             [] initial_state).1.2
  = [ Logo;
      ConsoleLog (Some yellow)
        (VString (js "Using model: gemini-2.5-pro-preview-05-06"));
      ConsoleLog (Some yellow) (VString (js "Streaming: enabled"));
      ConsoleLog (Some yellow)
        (VString (jsq "Type 'exit' or press Ctrl+C to quit" ++ [10]));
      ConsoleError (Some red)
        (js "Warning: Gemini API not properly initialized at the proxy server.");
      ConsoleError (Some red)
        (js "Please check that GEMINI_API_KEY is set in the .env file.");
      Prompt ].
Proof. split; reflexivity. Qed.

End OrchestratorFacts.

(* ===================================================================== *)
(** * Further properties of the code *)
(* ===================================================================== *)

(** ** execute_command, edit_file and read_file *)

Module MoreToolFacts.

Lemma first_forbidden_found l command f :
  first_forbidden l command = Some f -> f ∈ l /\ occurs f command.
Proof.
  induction l as [|g l IH]; simpl; [done|].
  destruct (includes g command) eqn:E.
  - intros [= <-]. split; [left | by apply includes_true].
  - intros H. destruct (IH H). split; [by right | done].
Qed.



(** X2. On a file that contains [old_string], and for a [new_string]
    without a dollar sign, [edit_file] puts [new_string] in the place of
    the first occurrence and changes nothing else: with [before] the
    shortest text in front of an occurrence, the file is written with
    [before ++ new_string ++ after], which it holds as UTF-8 does, a
    surrogate left without its other half having become U+FFFD; when that
    text is well-formed the file holds it as it is.  Every other path of
    the store and the record of spawned commands are as they were. *)
Theorem edit_file_replaces_first_only
    (h : host) (file_path old_string new_string content : jstring)
    (w : World) :
  fs w !! path_resolve h file_path = Some (File content) ->
  occurs old_string content ->
  no_dollar new_string ->
  exists before after,
    content = before ++ old_string ++ after /\
    (forall a b, content = a ++ old_string ++ b ->
                 (length before <= length a)%nat) /\
    (edit_file h file_path old_string new_string w).2
    = mkWorld (<[path_resolve h file_path :=
                   File (toWellFormed (before ++ new_string ++ after))]>
                 (fs w))
              (spawned w) /\
    (well_formed (before ++ new_string ++ after) ->
     (edit_file h file_path old_string new_string w).2
     = mkWorld (<[path_resolve h file_path :=
                    File (before ++ new_string ++ after)]> (fs w))
               (spawned w)).
Proof.
  intros Hfile Hocc Hnd.
  rewrite (ToolFacts.edit_file_present _ _ _ _ _ _ Hfile Hocc). cbn [snd].
  apply includes_true in Hocc. unfold includes in Hocc.
  destruct (indexOf old_string content) as [i|] eqn:E; [|done].
  rewrite (replace_first_literal _ _ _ _ E Hnd).
  destruct (indexOf_first _ _ _ E) as [Hcut Hmin].
  apply indexOf_Some in E as (_ & Hi & _).
  exists (take i content), (drop (i + length old_string) content).
  split; [done|]. split; [|split; [done|]].
  - intros a b Hab. rewrite length_take. specialize (Hmin a b Hab). lia.
  - intros Hwf. by rewrite (toWellFormed_well_formed _ Hwf).
Qed.

Lemma edit_file_replaces_first_only_witness :
  exists before after,
    js "a.b.c" = before ++ js "." ++ after /\
    (forall a b, js "a.b.c" = a ++ js "." ++ b ->
                 (length before <= length a)%nat) /\
    (edit_file sample_host (js "/v.txt") (js ".") (js "-")
               (one_file (js "/v.txt") (js "a.b.c"))).2
    = mkWorld (<[path_resolve sample_host (js "/v.txt") :=
                   File (toWellFormed (before ++ js "-" ++ after))]>
                 (fs (one_file (js "/v.txt") (js "a.b.c"))))
              (spawned (one_file (js "/v.txt") (js "a.b.c"))) /\
    (well_formed (before ++ js "-" ++ after) ->
     (edit_file sample_host (js "/v.txt") (js ".") (js "-")
                (one_file (js "/v.txt") (js "a.b.c"))).2
     = mkWorld (<[path_resolve sample_host (js "/v.txt") :=
                    File (before ++ js "-" ++ after)]>
                  (fs (one_file (js "/v.txt") (js "a.b.c"))))
               (spawned (one_file (js "/v.txt") (js "a.b.c")))).
Proof.
  apply (edit_file_replaces_first_only sample_host (js "/v.txt") (js ".")
           (js "-") (js "a.b.c")).
  - reflexivity.
  - exists (js "a"), (js "b.c"). reflexivity.
  - apply (bool_decide_unpack _). vm_compute. exact I.
Defined.

(** X3. [edit_file] works on regular files that are there, and on nothing
    else: on a path at which nothing exists, and on a directory, it
    returns an error object and the world stays as it is, so it never
    creates a file; [read_file] on a directory returns an error object
    too. *)
Theorem edit_file_needs_a_regular_file
    (h : host) (file_path old_string new_string : jstring)
    (offset limit : option Z) (w : World) :
  (forall content, fs w !! path_resolve h file_path <> Some (File content)) ->
  is_error (edit_file h file_path old_string new_string w).1 /\
  (edit_file h file_path old_string new_string w).2 = w /\
  is_error (read_file h file_path offset limit w).
Proof.
  intros H. unfold edit_file, read_file, existsSync, readFileAsync.
  destruct (fs w !! path_resolve h file_path) as [[content|]|] eqn:E.
  - by destruct (H content).
  - simpl. repeat split; eexists; reflexivity.
  - simpl. repeat split; eexists; reflexivity.
Qed.

Lemma edit_file_needs_a_regular_file_witness :
  is_error (edit_file sample_host (js "/none.txt") (js "a") (js "b")
              (mkWorld ∅ [])).1 /\
  (edit_file sample_host (js "/none.txt") (js "a") (js "b") (mkWorld ∅ [])).2
  = mkWorld ∅ [] /\
  is_error (read_file sample_host (js "/none.txt") None None (mkWorld ∅ [])).
Proof.
  apply (edit_file_needs_a_regular_file sample_host (js "/none.txt") (js "a")
           (js "b") None None (mkWorld ∅ [])).
  intros content. discriminate.
Defined.

(** X4. An empty [old_string] is found at the start of every file:
    [edit_file] then writes [new_string] (free of dollar signs) followed
    by the content and reports one replacement.  The file holds that text
    as UTF-8 does; when [new_string] and the content are well-formed, it
    is [new_string] in front of the content. *)
Theorem edit_file_empty_old_string_prepends
    (h : host) (file_path new_string content : jstring) (w : World) :
  fs w !! path_resolve h file_path = Some (File content) ->
  no_dollar new_string ->
  edit_file h file_path [] new_string w
  = (VObject [ (js "success", VBool true);
               (js "message",
                VString (js "File edited successfully: " ++ file_path));
               (js "replacements", VNumber 1 0) ],
     mkWorld (<[path_resolve h file_path :=
                  File (toWellFormed (new_string ++ content))]> (fs w))
             (spawned w)) /\
  (well_formed new_string -> well_formed content ->
   fs (edit_file h file_path [] new_string w).2 !! path_resolve h file_path
   = Some (File (new_string ++ content))).
Proof.
  intros Hfile Hnd.
  rewrite (ToolFacts.edit_file_present _ _ _ _ content _ Hfile).
  - rewrite (replace_first_literal content [] new_string 0); [| |done].
    + split; [done|]. intros Hn Hc.
      cbn [snd fs take drop app length Nat.add].
      rewrite lookup_insert_eq, take_0, drop_0. cbn [app].
      by rewrite (toWellFormed_well_formed _ (well_formed_app _ _ Hn Hc)).
    + by destruct content.
  - by exists [], content.
Qed.

Lemma edit_file_empty_old_string_prepends_witness :
  edit_file sample_host (js "/v.txt") [] (js "# ")
            (one_file (js "/v.txt") (js "title"))
  = (VObject [ (js "success", VBool true);
               (js "message",
                VString (js "File edited successfully: " ++ js "/v.txt"));
               (js "replacements", VNumber 1 0) ],
     mkWorld (<[path_resolve sample_host (js "/v.txt") :=
                  File (toWellFormed (js "# " ++ js "title"))]>
                (fs (one_file (js "/v.txt") (js "title"))))
             (spawned (one_file (js "/v.txt") (js "title")))).
Proof.
  apply (edit_file_empty_old_string_prepends sample_host (js "/v.txt")
           (js "# ") (js "title")).
  - reflexivity.
  - apply (bool_decide_unpack _). vm_compute. exact I.
Defined.

(** *** read_file: the window for any offset and limit *)

Lemma array_slice_run {A} (lines : list A) (start stop : Z) :
  (start <= stop)%Z ->
  exists k n,
    array_slice lines start stop = take n (drop k lines) /\
    (Z.of_nat n <= stop - start)%Z /\
    (k + n <= length lines)%nat.
Proof.
  intros Hss. unfold array_slice, clamp_index.
  set (len := Z.of_nat (length lines)).
  assert (0 <= len)%Z as Hlen by (unfold len; lia).
  set (k := if (start <? 0)%Z then Z.max (len + start) 0 else Z.min start len).
  set (final := if (stop <? 0)%Z then Z.max (len + stop) 0 else Z.min stop len).
  assert (0 <= k <= len)%Z as Hk.
  { unfold k. destruct (start <? 0)%Z eqn:E; lia. }
  assert (0 <= final <= len)%Z as Hf.
  { unfold final. destruct (stop <? 0)%Z eqn:E; lia. }
  assert (final - k <= stop - start)%Z as Hd.
  { unfold k, final.
    destruct (Z.ltb_spec start 0), (Z.ltb_spec stop 0); lia. }
  exists (Z.to_nat k), (Z.to_nat (Z.max 0 (final - k))).
  split; [f_equal; lia|]. split; lia.
Qed.

(** X5. For an offset that a double holds exactly (at most 2^53 either
    way, a negative one included) and a limit from 0 to 2^53, [read_file]
    on an existing file shows a run of consecutive pieces of the file,
    never more than [limit] of them and never more than the file has;
    [displayed_lines] is their number. *)
Theorem read_file_shows_a_bounded_run
    (h : host) (file_path content : jstring) (offset limit : Z) (w : World) :
  fs w !! path_resolve h file_path = Some (File content) ->
  safe_integer offset ->
  (0 <= limit <= 2 ^ 53)%Z ->
  exists k n,
    (Z.of_nat n <= limit)%Z /\
    (k + n <= split_count content)%nat /\
    length (take n (drop k (split [10] content))) = n /\
    read_file h file_path (Some offset) (Some limit) w =
      VObject [ (js "content",
                 VString (join [10]
                            (imap (fun i line =>
                                     numbered (Z.of_nat i + offset + 1) line)
                                  (take n (drop k (split [10] content))))));
                (js "total_lines",
                 VNumber (Z.of_nat (split_count content)) 0);
                (js "displayed_lines", VNumber (Z.of_nat n) 0) ].
Proof.
  intros Hfile _ [Hlimit _].
  destruct (array_slice_run (split [10] content) offset (offset + limit))
    as (k & n & Hs & Hn & Hk); [lia|].
  rewrite ToolFacts.split_lines_length in Hk.
  exists k, n.
  assert (length (take n (drop k (split [10] content))) = n) as Hlen.
  { rewrite length_take, length_drop, ToolFacts.split_lines_length. lia. }
  split; [lia|]. split; [done|]. split; [done|].
  rewrite (ToolFacts.read_file_on_file _ _ _ _ _ _ Hfile). cbv zeta.
  by rewrite Hs, Hlen, ToolFacts.split_lines_length.
Qed.

Lemma read_file_shows_a_bounded_run_witness :
  exists k n,
    (Z.of_nat n <= 5)%Z /\
    (k + n <= split_count (js "x
y
z"))%nat /\
    length (take n (drop k (split [10] (js "x
y
z")))) = n /\
    read_file sample_host (js "/a") (Some (-2)%Z) (Some 5%Z)
              (one_file (js "/a") (js "x
y
z")) =
      VObject [ (js "content",
                 VString (join [10]
                            (imap (fun i line =>
                                     numbered (Z.of_nat i + (-2) + 1) line)
                                  (take n (drop k (split [10] (js "x
y
z")))))));
                (js "total_lines",
                 VNumber (Z.of_nat (split_count (js "x
y
z"))) 0);
                (js "displayed_lines", VNumber (Z.of_nat n) 0) ].
Proof.
  apply (read_file_shows_a_bounded_run sample_host (js "/a") (js "x
y
z") (-2) 5 (one_file (js "/a") (js "x
y
z"))).
  - reflexivity.
  - split; apply Z.leb_le; reflexivity.
  - split; apply Z.leb_le; reflexivity.
Defined.

(** *** read_file: what total_lines counts *)

(** X29. [total_lines] counts the pieces between line feeds, whatever the
    offset and the limit.  For a file whose last line has no line feed
    after it, that is the number of lines the file holds; for the empty
    file and for a file that ends in a line feed it is one more. *)
Theorem read_file_counts_pieces
    (h : host) (file_path content : jstring) (offset limit : option Z)
    (w : World) :
  fs w !! path_resolve h file_path = Some (File content) ->
  exists shown displayed,
    read_file h file_path offset limit w
    = VObject [ (js "content", VString shown);
                (js "total_lines",
                 VNumber (Z.add (Z.of_nat (true_line_count content))
                                (match last content with
                                 | Some c =>
                                     if decide (c = 10) then 1%Z else 0%Z
                                 | None => 1%Z
                                 end)) 0);
                (js "displayed_lines", VNumber displayed 0) ].
Proof.
  intros Hfile. destruct (ToolFacts.exists_file _ _ _ _ Hfile) as [He Hr].
  unfold read_file. rewrite He, Hr. cbn [negb].
  rewrite ToolFacts.split_lines_length, ToolFacts.split_count_lines.
  assert (Z.of_nat (Nat.add (true_line_count content)
                            (match last content with
                             | Some c =>
                                 if decide (c = 10) then 1%nat else 0%nat
                             | None => 1%nat
                             end))
          = Z.add (Z.of_nat (true_line_count content))
                  (match last content with
                   | Some c => if decide (c = 10) then 1%Z else 0%Z
                   | None => 1%Z
                   end)) as ->.
  { destruct (last content) as [c|]; [destruct (decide (c = 10))|]; lia. }
  by eexists _, _.
Qed.

Lemma read_file_counts_pieces_witness :
  exists shown displayed,
    read_file sample_host (js "/b.txt") None None
              (one_file (js "/b.txt") (js "x" ++ [10] ++ js "y" ++ [10]))
    = VObject [ (js "content", VString shown);
                (js "total_lines",
                 VNumber (Z.add (Z.of_nat (true_line_count
                                             (js "x" ++ [10] ++ js "y"
                                              ++ [10])))
                                (match last (js "x" ++ [10] ++ js "y"
                                             ++ [10]) with
                                 | Some c =>
                                     if decide (c = 10) then 1%Z else 0%Z
                                 | None => 1%Z
                                 end)) 0);
                (js "displayed_lines", VNumber displayed 0) ].
Proof.
  apply (read_file_counts_pieces sample_host (js "/b.txt")
           (js "x" ++ [10] ++ js "y" ++ [10]) None None
           (one_file (js "/b.txt") (js "x" ++ [10] ++ js "y" ++ [10]))).
  reflexivity.
Defined.

(** *** read_file: the content read back line by line *)

Lemma split_go_piece s cur :
  10 ∉ s -> split_go [10] s 0 cur = [cur ++ s].
Proof.
  revert cur; induction s as [|c s IH]; intros cur Hs.
  - by rewrite app_nil_r.
  - apply not_elem_of_cons in Hs as [Hc Hs].
    cbn [split_go startsWith]. rewrite andb_true_r.
    destruct (N.eqb_spec 10 c) as [E|_]; [by destruct Hc|].
    rewrite IH by done. by rewrite <- app_assoc.
Qed.

Lemma split_go_line l rest cur :
  10 ∉ l ->
  split_go [10] (l ++ [10] ++ rest) 0 cur
  = (cur ++ l) :: split_go [10] rest 0 [].
Proof.
  revert cur; induction l as [|c l IH]; intros cur Hl.
  - by rewrite app_nil_r.
  - apply not_elem_of_cons in Hl as [Hc Hl].
    cbn [app split_go startsWith]. rewrite andb_true_r.
    destruct (N.eqb_spec 10 c) as [E|_]; [by destruct Hc|].
    rewrite IH by done. by rewrite <- app_assoc.
Qed.

(** Lines without a line feed, joined by line feeds, split back into
    themselves. *)
Lemma split_join_lines ls :
  ls <> [] -> Forall (fun l => 10 ∉ l) ls -> split [10] (join [10] ls) = ls.
Proof.
  unfold split. induction ls as [|l ls IH]; [done|]. intros _ H.
  apply Forall_cons in H as [Hl Hls].
  destruct ls as [|l' ls].
  - cbn [join]. by rewrite split_go_piece.
  - cbn [join]. rewrite split_go_line by done. cbn [app]. f_equal.
    by apply IH.
Qed.

(** The pieces [split] cuts at line feeds hold no line feed. *)
Lemma split_go_no_line_feed s cur :
  10 ∉ cur -> Forall (fun l => 10 ∉ l) (split_go [10] s 0 cur).
Proof.
  revert cur; induction s as [|c s IH]; intros cur Hcur.
  - by constructor.
  - cbn [split_go startsWith length Nat.sub]. rewrite andb_true_r.
    destruct (N.eqb_spec 10 c) as [E|Hc].
    + constructor; [done|]. apply IH. by apply not_elem_of_nil.
    + apply IH. rewrite elem_of_app, list_elem_of_singleton. tauto.
Qed.

Lemma string_of_uint_digits d c :
  c ∈ js (NilEmpty.string_of_uint d) -> (48 <= c <= 57)%N.
Proof.
  unfold js. induction d; cbn [NilEmpty.string_of_uint list_ascii_of_string
                                List.map];
    try (intros H; apply elem_of_cons in H as [->|H];
         [vm_compute; split; discriminate | by apply IHd]).
  intros H. by apply elem_of_nil in H.
Qed.

Lemma int_toString_no_line_feed z : 10 ∉ int_toString z.
Proof.
  unfold int_toString. intros H.
  destruct (Z.to_int z) as [d|d]; cbn [NilEmpty.string_of_int] in H.
  - apply string_of_uint_digits in H. lia.
  - unfold js in H. cbn [list_ascii_of_string List.map] in H.
    apply elem_of_cons in H as [H|H]; [discriminate H|].
    apply (string_of_uint_digits d) in H. lia.
Qed.

Lemma numbered_no_line_feed n line : 10 ∉ line -> 10 ∉ numbered n line.
Proof.
  intros Hl. unfold numbered, padStart.
  rewrite !elem_of_app. intros [[H|H]|[H|H]].
  - apply elem_of_replicate in H as [H _]. discriminate H.
  - by apply int_toString_no_line_feed in H.
  - vm_compute in H. apply elem_of_cons in H as [H|H]; [discriminate H|].
    apply elem_of_cons in H as [H|H]; [discriminate H|].
    by apply elem_of_nil in H.
  - done.
Qed.

(** X6. The [content] that [read_file] returns can be read back: when at
    least one line is shown (offset within the file, positive limit),
    cutting the content at its line feeds gives exactly [displayed_lines]
    pieces, the piece of index [i] being line [offset + i] of the file
    behind its number [offset + i + 1]. *)
Theorem read_file_content_lines
    (h : host) (file_path content : jstring) (o l : Z) (w : World) :
  fs w !! path_resolve h file_path = Some (File content) ->
  (0 <= o < Z.of_nat (split_count content))%Z -> (0 < l)%Z ->
  exists text shown,
    prop (read_file h file_path (Some o) (Some l) w) (js "content")
    = VString text /\
    prop (read_file h file_path (Some o) (Some l) w) (js "displayed_lines")
    = VNumber (Z.of_nat (length shown)) 0 /\
    split [10] text = shown /\
    (0 < length shown)%nat /\
    forall i piece,
      shown !! i = Some piece ->
      exists line,
        split [10] content !! (Z.to_nat o + i)%nat = Some line /\
        piece = numbered (o + Z.of_nat i + 1) line.
Proof.
  intros Hfile Ho Hl.
  rewrite (ToolFacts.read_file_on_file _ _ _ _ _ _ Hfile). cbv zeta.
  rewrite (ToolFacts.array_slice_window _ _ _ (proj1 Ho) Hl).
  rewrite ToolFacts.split_lines_length.
  set (n := Z.to_nat (Z.max 0 (Z.min l (Z.of_nat (split_count content) - o)))).
  set (selected := take n (drop (Z.to_nat o) (split [10] content))).
  set (shown := imap (fun i line => numbered (Z.of_nat i + o + 1) line)
                     selected).
  assert (length selected = n) as Hsel.
  { unfold selected.
    rewrite length_take, length_drop, ToolFacts.split_lines_length. lia. }
  assert (0 < n)%nat as Hn by (unfold n; lia).
  assert (Forall (fun l => 10 ∉ l) selected) as Hnl.
  { unfold selected. apply Forall_take, Forall_drop.
    apply split_go_no_line_feed, not_elem_of_nil. }
  exists (join [10] shown), shown.
  split; [reflexivity|]. split.
  { change (prop _ (js "displayed_lines"))
      with (VNumber (Z.of_nat (length selected)) 0).
    unfold shown. by rewrite length_imap. }
  assert (length shown = n) as Hshown.
  { unfold shown. by rewrite length_imap. }
  split; [|split; [lia|]].
  - apply split_join_lines.
    + intros E. rewrite E in Hshown. simpl in Hshown. lia.
    + unfold shown. apply Forall_lookup. intros i x Hi.
      apply list_lookup_imap_Some in Hi as (line & Hline & ->).
      apply numbered_no_line_feed.
      by eapply (proj1 (Forall_lookup _ _) Hnl).
  - intros i piece Hi. unfold shown in Hi.
    apply list_lookup_imap_Some in Hi as (line & Hline & ->).
    exists line. split.
    + unfold selected in Hline. apply lookup_take_Some in Hline as [Hline _].
      by rewrite lookup_drop in Hline.
    + f_equal. lia.
Qed.

Lemma read_file_content_lines_witness :
  exists text shown,
    prop (read_file sample_host (js "/a") (Some 1%Z) (Some 5%Z)
            (one_file (js "/a") (js "x
y
z"))) (js "content")
    = VString text /\
    prop (read_file sample_host (js "/a") (Some 1%Z) (Some 5%Z)
            (one_file (js "/a") (js "x
y
z"))) (js "displayed_lines")
    = VNumber (Z.of_nat (length shown)) 0 /\
    split [10] text = shown /\
    (0 < length shown)%nat /\
    forall i piece,
      shown !! i = Some piece ->
      exists line,
        split [10] (js "x
y
z") !! (Z.to_nat 1 + i)%nat = Some line /\
        piece = numbered (1 + Z.of_nat i + 1) line.
Proof.
  apply (read_file_content_lines sample_host (js "/a") (js "x
y
z") 1 5 (one_file (js "/a") (js "x
y
z"))).
  - reflexivity.
  - vm_compute. split; [discriminate | reflexivity].
  - reflexivity.
Defined.

End MoreToolFacts.

(** ** write_file *)

Module WriteFileFacts.

Lemma dirname_scan_found r m j0 j :
  dirname_scan r m j0 = Some j ->
  (j0 <= j < j0 + length r)%nat /\ (m = true -> (j0 < j)%nat).
Proof.
  revert m j0; induction r as [|c r IH]; intros m j0; simpl; [done|].
  destruct (c =? 47).
  - destruct m.
    + intros H. apply IH in H as [H1 H2]. split; [lia|]. intros _. lia.
    + intros [= <-]. split; [lia | done].
  - intros H. apply IH in H as [H1 _]. split; [lia|]. intros _. lia.
Qed.

Lemma path_depth_le q : q <> [] -> (path_depth q <= 2 * length q)%nat.
Proof.
  intros Hq. unfold path_depth. destruct (decide _); [lia|].
  destruct q; [done | lia].
Qed.

(** [dirname] lowers the rank of every path it changes. *)
Lemma dirname_lowers p :
  dirname p <> p -> (path_depth (dirname p) < path_depth p)%nat.
Proof.
  destruct p as [|c0 tail]; [intros _; by vm_compute|].
  unfold dirname.
  destruct (dirname_scan (rev tail) true 0) as [j|] eqn:E.
  - apply dirname_scan_found in E as [Hj Hm]. specialize (Hm eq_refl).
    rewrite length_rev in Hj. cbn [length] in *.
    assert (c0 :: tail <> js ".") as Hdot.
    { intros [= -> ->]. simpl in Hj. lia. }
    assert (path_depth (c0 :: tail) = 2 * S (length tail))%nat as ->.
    { unfold path_depth. by rewrite decide_False. }
    destruct ((c0 =? 47) && (S (length tail) - 1 - j =? 1)%nat) eqn:Eb.
    + intros _. apply andb_true_iff in Eb as [_ Eb].
      apply Nat.eqb_eq in Eb.
      change (path_depth (js "//")) with 4%nat. lia.
    + intros _.
      assert (take (S (length tail) - 1 - j) (c0 :: tail) <> []) as Hne.
      { intros Ht. apply (f_equal length) in Ht.
        rewrite length_take in Ht. cbn [length] in Ht. lia. }
      pose proof (path_depth_le _ Hne) as Hle.
      rewrite length_take in Hle. cbn [length] in Hle. lia.
  - destruct (N.eqb_spec c0 47) as [->|Hc].
    + intros Hne. change (path_depth (js "/")) with 2%nat.
      destruct tail as [|c1 tail]; [done|].
      unfold path_depth. rewrite decide_False by done. cbn [length]. lia.
    + intros Hne. change (path_depth (js ".")) with 0%nat.
      unfold path_depth. rewrite decide_False by done. cbn [length]. lia.
Qed.

(** What [mkdir_recursive] leaves: the directory, the entries that were
    there, and nothing new but directories of a rank up to that of the
    path. *)
Lemma mkdir_recursive_makes fuel target p files files' :
  mkdir_recursive fuel target p files = Some (Normal files') ->
  files' !! p = Some Directory /\
  (forall q n, files !! q = Some n -> files' !! q = Some n) /\
  (forall q, files !! q = None ->
             files' !! q = None \/
             (files' !! q = Some Directory /\
              (path_depth q <= path_depth p)%nat)).
Proof.
  revert p files'; induction fuel as [|fuel IH]; intros p files';
    cbn [mkdir_recursive].
  - destruct (files !! p) as [[c|]|] eqn:E; [done| |].
    + intros [= <-]. repeat split; auto.
    + destruct (decide (dirname p = p)); [|done].
      intros [= <-]. split; [apply lookup_insert_eq|]. split.
      * intros q n Hq. rewrite lookup_insert_ne; [done | congruence].
      * intros q Hq. destruct (decide (p = q)) as [->|Hne].
        -- right. by rewrite lookup_insert_eq.
        -- left. by rewrite lookup_insert_ne.
  - destruct (files !! p) as [[c|]|] eqn:E; [done| |].
    + intros [= <-]. repeat split; auto.
    + destruct (decide (dirname p = p)) as [Hfix|Hne].
      * intros [= <-]. split; [apply lookup_insert_eq|]. split.
        -- intros q n Hq. rewrite lookup_insert_ne; [done | congruence].
        -- intros q Hq. destruct (decide (p = q)) as [->|Hne].
           ++ right. by rewrite lookup_insert_eq.
           ++ left. by rewrite lookup_insert_ne.
      * destruct (mkdir_recursive fuel target (dirname p) files)
          as [[files1|e]|] eqn:Er; [|done|done].
        intros [= <-]. destruct (IH _ _ Er) as (_ & Hkeep & Hnew).
        pose proof (dirname_lowers p Hne) as Hlow.
        split; [apply lookup_insert_eq|]. split.
        -- intros q n Hq. rewrite lookup_insert_ne; [by apply Hkeep|].
           congruence.
        -- intros q Hq. destruct (decide (p = q)) as [->|Hpq].
           ++ right. by rewrite lookup_insert_eq.
           ++ rewrite lookup_insert_ne by done.
              destruct (Hnew q Hq) as [?|[? ?]]; [by left|].
              right. split; [done | lia].
Qed.

(** The fuel that [mkdirSync_recursive] gives is enough. *)
Lemma mkdir_recursive_fuel fuel target p files :
  (path_depth p <= fuel)%nat -> mkdir_recursive fuel target p files <> None.
Proof.
  revert p; induction fuel as [|fuel IH]; intros p Hp;
    cbn [mkdir_recursive]; destruct (files !! p) as [[c|]|]; try done.
  - destruct (decide (dirname p = p)) as [|Hne]; [done|].
    pose proof (dirname_lowers p Hne). lia.
  - destruct (decide (dirname p = p)) as [|Hne]; [done|].
    pose proof (dirname_lowers p Hne) as Hlow.
    specialize (IH (dirname p) ltac:(lia)).
    by destruct (mkdir_recursive fuel target (dirname p) files) as [[?|?]|].
Qed.


Lemma mkdirSync_recursive_makes p w w1 :
  mkdirSync_recursive p w = Normal w1 ->
  spawned w1 = spawned w /\
  fs w1 !! p = Some Directory /\
  (forall q n, fs w !! q = Some n -> fs w1 !! q = Some n) /\
  (forall q, fs w !! q = None ->
             fs w1 !! q = None \/
             (fs w1 !! q = Some Directory /\
              (path_depth q <= path_depth p)%nat)).
Proof.
  unfold mkdirSync_recursive.
  destruct (fs w !! p) as [[c|]|] eqn:E; [done| |];
    (destruct (mkdir_recursive (path_depth p) p p (fs w)) as [[files|e]|] eqn:Em;
     [|done|done]);
    intros [= <-]; cbn [fs spawned]; split; try done;
    by apply (mkdir_recursive_makes _ _ _ _ _ Em).
Qed.

Lemma writeFile_new_written p content w1 w2 :
  writeFile_new p content w1 = Normal w2 ->
  fs w1 !! dirname p = Some Directory /\
  fs w1 !! p <> Some Directory /\
  w2 = mkWorld (<[p := File (toWellFormed content)]> (fs w1)) (spawned w1).
Proof.
  unfold writeFile_new, writeFileAsync.
  destruct (fs w1 !! dirname p) as [[c|]|]; [done| |done].
  destruct (fs w1 !! p) as [[c|]|]; [|done|]; by intros [= <-].
Qed.

(** The steps of [write_file]: the directory made if it was not there,
    then the file written. *)
Lemma write_file_steps (h : host) file_path content w :
  let absolutePath := path_resolve h file_path in
  (exists m, write_file h file_path content w = (error_result m, w)) \/
  (exists w1,
     (w1 = w \/ mkdirSync_recursive (dirname absolutePath) w = Normal w1) /\
     ((exists m, write_file h file_path content w = (error_result m, w1)) \/
      (fs w1 !! dirname absolutePath = Some Directory /\
       fs w1 !! absolutePath <> Some Directory /\
       write_file h file_path content w
       = (VObject [ (js "success", VBool true);
                    (js "message",
                     VString (js "File written successfully: "
                              ++ file_path)) ],
          mkWorld (<[absolutePath := File (toWellFormed content)]> (fs w1))
                  (spawned w1))))).
Proof.
  intros absolutePath. unfold write_file. fold absolutePath.
  destruct (negb (existsSync (dirname absolutePath) w)).
  - destruct (mkdirSync_recursive (dirname absolutePath) w) as [w1|e] eqn:Em;
      [|left; by eauto].
    right. exists w1. split; [by right|].
    destruct (writeFile_new absolutePath content w1) as [w2|e] eqn:Ew;
      [|left; by eauto].
    right. apply writeFile_new_written in Ew as (? & ? & ->). done.
  - right. exists w. split; [by left|].
    destruct (writeFile_new absolutePath content w) as [w2|e] eqn:Ew;
      [|left; by eauto].
    right. apply writeFile_new_written in Ew as (? & ? & ->). done.
Qed.

Lemma not_error_result m : is_error (error_result m).
Proof. eexists. reflexivity. Qed.

(** [read_file] looks at nothing but the entry at the resolved path. *)
Lemma read_file_local (h : host) file_path offset limit w1 w2 :
  fs w1 !! path_resolve h file_path = fs w2 !! path_resolve h file_path ->
  read_file h file_path offset limit w1 = read_file h file_path offset limit w2.
Proof.
  intros H. unfold read_file, existsSync, readFileAsync. by rewrite H.
Qed.

(** X7. What [write_file] reports as written can be read back as UTF-8
    holds it: after a call that did not return an error, the store has a
    regular file at the resolved path, whatever was there before, in a
    directory; its content is the given one with every surrogate that is
    not half of a pair turned into U+FFFD, so exactly the given content
    when that is well-formed; and [read_file] on the same path gives what
    it gives on a file with that content. *)
Theorem write_file_then_read_file
    (h : host) (file_path content : jstring) (w : World) :
  ~ is_error (write_file h file_path content w).1 ->
  fs (write_file h file_path content w).2 !! path_resolve h file_path
  = Some (File (toWellFormed content)) /\
  (well_formed content ->
   fs (write_file h file_path content w).2 !! path_resolve h file_path
   = Some (File content)) /\
  fs (write_file h file_path content w).2
    !! dirname (path_resolve h file_path) = Some Directory /\
  forall offset limit,
    read_file h file_path offset limit (write_file h file_path content w).2
    = read_file h file_path offset limit
        (one_file (path_resolve h file_path) (toWellFormed content)).
Proof.
  intros Hok.
  destruct (write_file_steps h file_path content w)
    as [[m E]|(w1 & _ & [[m E]|(Hd & Hf & E)])];
    try (rewrite E in Hok; destruct Hok; apply not_error_result).
  rewrite E. cbn [fst snd fs].
  assert (dirname (path_resolve h file_path) <> path_resolve h file_path)
    as Hne by congruence.
  split; [apply lookup_insert_eq|]. split; [|split].
  - intros Hwf. rewrite lookup_insert_eq.
    by rewrite (toWellFormed_well_formed _ Hwf).
  - by rewrite lookup_insert_ne.
  - intros offset limit. apply read_file_local. cbn [fs one_file].
    by rewrite lookup_insert_eq, lookup_singleton_eq.
Qed.

Lemma write_file_then_read_file_witness :
  fs (write_file sample_host (js "/a/b/c.txt") (js "hello") (mkWorld ∅ [])).2
    !! path_resolve sample_host (js "/a/b/c.txt")
  = Some (File (toWellFormed (js "hello"))) /\
  (well_formed (js "hello") ->
   fs (write_file sample_host (js "/a/b/c.txt") (js "hello") (mkWorld ∅ [])).2
     !! path_resolve sample_host (js "/a/b/c.txt")
   = Some (File (js "hello"))) /\
  fs (write_file sample_host (js "/a/b/c.txt") (js "hello") (mkWorld ∅ [])).2
    !! dirname (path_resolve sample_host (js "/a/b/c.txt")) = Some Directory /\
  forall offset limit,
    read_file sample_host (js "/a/b/c.txt") offset limit
      (write_file sample_host (js "/a/b/c.txt") (js "hello") (mkWorld ∅ [])).2
    = read_file sample_host (js "/a/b/c.txt") offset limit
        (one_file (path_resolve sample_host (js "/a/b/c.txt"))
                  (toWellFormed (js "hello"))).
Proof.
  apply (write_file_then_read_file sample_host (js "/a/b/c.txt") (js "hello")
           (mkWorld ∅ [])).
  vm_compute. intros [m H]. discriminate H.
Defined.

(** X8. [write_file] touches one path: every other entry of the store is
    after the call what it was before, the only entries it adds besides
    the file are directories, and it spawns no command. *)
Theorem write_file_keeps_the_rest
    (h : host) (file_path content : jstring) (w : World) :
  spawned (write_file h file_path content w).2 = spawned w /\
  forall q,
    q <> path_resolve h file_path ->
    match fs w !! q with
    | Some n => fs (write_file h file_path content w).2 !! q = Some n
    | None =>
        fs (write_file h file_path content w).2 !! q = None \/
        fs (write_file h file_path content w).2 !! q = Some Directory
    end.
Proof.
  assert (forall w1 : World,
            (w1 = w \/
             mkdirSync_recursive (dirname (path_resolve h file_path)) w
             = Normal w1) ->
            spawned w1 = spawned w /\
            forall q, match fs w !! q with
                      | Some n => fs w1 !! q = Some n
                      | None => fs w1 !! q = None \/ fs w1 !! q = Some Directory
                      end) as Hdir.
  { intros w1 [->|Hm].
    - split; [done|]. intros q. destruct (fs w !! q); auto.
    - apply mkdirSync_recursive_makes in Hm as (Hs & _ & Hkeep & Hnew).
      split; [done|]. intros q. destruct (fs w !! q) as [n|] eqn:E.
      + by apply Hkeep.
      + destruct (Hnew q E) as [?|[? _]]; auto. }
  destruct (write_file_steps h file_path content w)
    as [[m E]|(w1 & Hw1 & [[m E]|(_ & _ & E)])]; rewrite E; cbn [fst snd].
  - split; [done|]. intros q _. destruct (fs w !! q); auto.
  - destruct (Hdir w1 Hw1) as [Hs Hq]. split; [done|]. intros q _. apply Hq.
  - destruct (Hdir w1 Hw1) as [Hs Hq]. split; [done|]. intros q Hne.
    cbn [fs]. rewrite lookup_insert_ne by done. apply Hq.
Qed.

Lemma write_file_keeps_the_rest_witness :
  match fs (one_file (js "/p/a.txt") (js "kept")) !! js "/p/a.txt" with
  | Some n =>
      fs (write_file sample_host (js "/p/new/b.txt") (js "hello")
            (one_file (js "/p/a.txt") (js "kept"))).2 !! js "/p/a.txt"
      = Some n
  | None =>
      fs (write_file sample_host (js "/p/new/b.txt") (js "hello")
            (one_file (js "/p/a.txt") (js "kept"))).2 !! js "/p/a.txt" = None \/
      fs (write_file sample_host (js "/p/new/b.txt") (js "hello")
            (one_file (js "/p/a.txt") (js "kept"))).2 !! js "/p/a.txt"
      = Some Directory
  end.
Proof.
  apply (proj2 (write_file_keeps_the_rest sample_host (js "/p/new/b.txt")
                  (js "hello") (one_file (js "/p/a.txt") (js "kept")))).
  vm_compute. discriminate.
Defined.



End WriteFileFacts.

(** ** search_code, list_directory and the catalogue *)

Module SearchFacts.

Lemma split_go_nonempty sep s skip cur : split_go sep s skip cur <> [].
Proof.
  revert skip cur; induction s as [|c s IH]; intros skip cur; simpl; [done|].
  destruct skip; [|apply IH]. destruct (startsWith sep (c :: s)); [done|].
  apply IH.
Qed.

(** Cutting at a code unit and joining with it again gives the text
    back. *)
Lemma join_split_go a s cur : join [a] (split_go [a] s 0 cur) = cur ++ s.
Proof.
  revert cur; induction s as [|c s IH]; intros cur.
  - simpl. by rewrite app_nil_r.
  - cbn [split_go startsWith length Nat.sub]. rewrite andb_true_r.
    destruct (N.eqb_spec a c) as [<-|Hc].
    + pose proof (split_go_nonempty [a] s 0 []) as Hne.
      specialize (IH []).
      destruct (split_go [a] s 0 []) as [|x xs]; [done|].
      cbn [join]. cbn [join] in IH. by rewrite IH.
    + rewrite IH. by rewrite <- app_assoc.
Qed.

Lemma split_go_first a l rest cur :
  a ∉ l ->
  split_go [a] (l ++ [a] ++ rest) 0 cur = (cur ++ l) :: split_go [a] rest 0 [].
Proof.
  revert cur; induction l as [|c l IH]; intros cur Hl.
  - cbn [app split_go startsWith length Nat.sub]. rewrite N.eqb_refl.
    by rewrite app_nil_r.
  - apply not_elem_of_cons in Hl as [Hc Hl].
    cbn [app split_go startsWith]. rewrite andb_true_r.
    destruct (N.eqb_spec a c) as [E|_]; [by destruct Hc|].
    rewrite IH by done. by rewrite <- app_assoc.
Qed.

Lemma split_go_whole a l cur : a ∉ l -> split_go [a] l 0 cur = [cur ++ l].
Proof.
  revert cur; induction l as [|c l IH]; intros cur Hl.
  - by rewrite app_nil_r.
  - apply not_elem_of_cons in Hl as [Hc Hl].
    cbn [split_go startsWith]. rewrite andb_true_r.
    destruct (N.eqb_spec a c) as [E|_]; [by destruct Hc|].
    rewrite IH by done. by rewrite <- app_assoc.
Qed.

(** X10. A line of output is read as [{ file, content }] without loss
    when the file name holds no colon: the file is the text before the
    first colon and the content everything after it, further colons
    included; a line without any colon is all file and no content. *)
Theorem parse_match_keeps_colons (file content : jstring) :
  58 ∉ file ->
  parse_match (file ++ [58] ++ content)
  = VObject [ (js "file", VString file); (js "content", VString content) ] /\
  parse_match file
  = VObject [ (js "file", VString file); (js "content", VString []) ].
Proof.
  intros Hf. unfold parse_match, split. split.
  - rewrite split_go_first by done. cbn [head tail fmap option_fmap option_map
                                          default app].
    by rewrite join_split_go.
  - by rewrite split_go_whole.
Qed.

Lemma parse_match_keeps_colons_witness :
  parse_match (js "src/a.js" ++ [58] ++ js "  const t = '12:30';")
  = VObject [ (js "file", VString (js "src/a.js"));
              (js "content", VString (js "  const t = '12:30';")) ] /\
  parse_match (js "src/a.js")
  = VObject [ (js "file", VString (js "src/a.js"));
              (js "content", VString []) ].
Proof.
  apply (parse_match_keeps_colons (js "src/a.js") (js "  const t = '12:30';")).
  apply (bool_decide_unpack _). vm_compute. exact I.
Defined.



Lemma grep_command_nonempty pattern absolutePath file_pattern :
  grep_command pattern absolutePath file_pattern <> [].
Proof. unfold grep_command. discriminate. Qed.



Lemma trimStart_white s : forallb is_white_space s = true -> trimStart s = [].
Proof.
  induction s as [|c s IH]; [done|]. cbn [forallb trimStart].
  intros H. apply andb_true_iff in H as [-> H]. by apply IH.
Qed.

Lemma match_lines_blank result :
  forallb is_white_space result = true -> match_lines result = [].
Proof.
  intros H. unfold match_lines, trim. by rewrite (trimStart_white _ H).
Qed.

(** X12. Finding nothing is not an error for [search_code]: when [grep]
    fails with status 1 and an empty error stream, and also when it
    prints nothing but white space, the result is the empty list of
    matches with count 0 and the pattern; any other failure of the
    command gives an error object with its message. *)
Theorem search_code_no_match_is_success
    (h : host) (se : shell_error) (pattern : jstring)
    (searchPath file_pattern : option jstring) (w : World) :
  let absolutePath := path_resolve h (default (js ".") searchPath) in
  let command := grep_command pattern absolutePath file_pattern in
  let nothing :=
    VObject [ (js "matches", VArray []); (js "count", VNumber 0 0);
              (js "pattern", VString pattern) ] in
  existsSync absolutePath w = true ->
  match (run_shell h command 30000 (fs w)).1 with
  | Normal result =>
      forallb is_white_space result = true ->
      (search_code h se pattern searchPath file_pattern w).1 = nothing
  | Throw e =>
      (error_status se e = Some 1%Z -> error_stderr se e = Some [] ->
       (search_code h se pattern searchPath file_pattern w).1 = nothing) /\
      (~ (error_status se e = Some 1%Z /\ error_stderr se e = Some []) ->
       (search_code h se pattern searchPath file_pattern w).1
       = error_result (js "Error searching code: " ++ message_of h e))
  end.
Proof.
  intros absolutePath command nothing He.
  unfold search_code. fold absolutePath. rewrite He. cbn [negb].
  fold command.
  rewrite ToolFacts.execSync_runs by (apply grep_command_nonempty || done).
  destruct (run_shell h command 30000 (fs w)) as [[result|e] files];
    cbn [fst].
  - intros Hb. by rewrite (match_lines_blank _ Hb).
  - split.
    + intros H1 H2. by rewrite bool_decide_eq_true_2.
    + intros Hn. by rewrite bool_decide_eq_false_2.
Qed.

Lemma search_code_no_match_is_success_witness :
  (search_code (shell_host (Throw no_match)) grep_errors (js "needle")
               (Some (js "/p")) None project).1
  = VObject [ (js "matches", VArray []); (js "count", VNumber 0 0);
              (js "pattern", VString (js "needle")) ].
Proof.
  apply (proj1 (search_code_no_match_is_success (shell_host (Throw no_match))
                  grep_errors (js "needle") (Some (js "/p")) None project
                  eq_refl));
    reflexivity.
Defined.

Lemma entries_all (h : host) absolutePath names w :
  (forall name, name ∈ names ->
                is_Some (fs w !! path_join h absolutePath name)) ->
  exists es,
    entries h absolutePath names w = Normal es /\
    Forall2 (fun name e =>
               exists node, fs w !! path_join h absolutePath name = Some node
                            /\ e = entry name node) names es.
Proof.
  induction names as [|name names IH]; intros H.
  - exists []. split; [done | constructor].
  - destruct (H name) as [node Hn]; [by left|].
    destruct IH as (es & He & Hf); [intros n Hin; apply H; by right|].
    exists (entry name node :: es). cbn [entries]. rewrite Hn, He.
    split; [done|]. constructor; [by eauto | done].
Qed.

Lemma entries_missing (h : host) absolutePath names w name :
  name ∈ names -> fs w !! path_join h absolutePath name = None ->
  exists e, entries h absolutePath names w = Throw e.
Proof.
  intros Hin Hn. induction Hin as [name names|name other names Hin IH];
    cbn [entries].
  - rewrite Hn. by eauto.
  - destruct (fs w !! path_join h absolutePath other); [|by eauto].
    destruct (IH Hn) as [e ->]. by eauto.
Qed.

(** X13. [list_directory] without a pattern, and with the empty pattern
    alike, lists a directory entry by entry: one [{ name, type }] for each
    name the directory holds, in the same order, typed [directory] or
    [file] after what the store has under that name.  If one of the
    names is gone from the store the whole listing is an error, as it is
    for a path that is missing or is a regular file. *)
Theorem list_directory_lists_every_entry
    (h : host)
    (globAsync : jstring -> jstring -> gmap (list N) fs_node
                 -> completion (list jstring))
    (directory_path : jstring) (w : World) :
  let absolutePath := path_resolve h directory_path in
  let names := readdirSync h absolutePath (fs w) in
  list_directory h globAsync directory_path (Some []) w
  = list_directory h globAsync directory_path None w /\
  (fs w !! absolutePath = Some Directory ->
   (forall name, name ∈ names ->
                 is_Some (fs w !! path_join h absolutePath name)) ->
   exists es,
     list_directory h globAsync directory_path None w
     = VObject [ (js "files", VArray es);
                 (js "directory", VString absolutePath) ] /\
     Forall2 (fun name e =>
                exists node,
                  fs w !! path_join h absolutePath name = Some node /\
                  e = entry name node) names es) /\
  (fs w !! absolutePath <> Some Directory \/
   (exists name, name ∈ names /\
                 fs w !! path_join h absolutePath name = None) ->
   is_error (list_directory h globAsync directory_path None w)).
Proof.
  intros absolutePath names. split; [done|]. split.
  - intros Hd Hall. unfold list_directory. fold absolutePath. rewrite Hd.
    cbn [bind]. fold names.
    destruct (entries_all h absolutePath names w Hall) as (es & -> & Hf).
    by eauto.
  - intros H. unfold list_directory. fold absolutePath.
    destruct (fs w !! absolutePath) as [[c|]|] eqn:E;
      try (eexists; reflexivity).
    destruct H as [H|(name & Hin & Hn)]; [done|].
    cbn [bind]. fold names.
    destruct (entries_missing h absolutePath names w name Hin Hn) as [e ->].
    eexists. reflexivity.
Qed.

Lemma list_directory_lists_every_entry_witness :
  exists es,
    list_directory (shell_host (Normal [])) no_glob (js "/p") None project
    = VObject [ (js "files", VArray es);
                (js "directory", VString (js "/p")) ] /\
    Forall2 (fun name e =>
               exists node,
                 fs project !! path_join (shell_host (Normal [])) (js "/p") name
                 = Some node /\
                 e = entry name node)
            (readdirSync (shell_host (Normal [])) (js "/p") (fs project)) es.
Proof.
  apply (proj1 (proj2 (list_directory_lists_every_entry
                         (shell_host (Normal [])) no_glob (js "/p") project))).
  - reflexivity.
  - intros name Hin. cbn [readdirSync shell_host] in Hin.
    apply elem_of_cons in Hin as [->|Hin]; [by eexists|].
    apply elem_of_cons in Hin as [->|Hin]; [by eexists|].
    by apply elem_of_nil in Hin.
Defined.

(** X14. The catalogue sent to the remote end and the registry of
    implementations name the same tools, in the same order and each once:
    every advertised tool is found by the lookup of [processToolCall], no
    implementation is left unadvertised, and every parameter a
    definition requires is one it declares. *)
Theorem catalogue_matches_registry :
  td_name <$> toolDefinitions = tool_names /\
  NoDup tool_names /\
  Forall (fun d =>
            toolImplementations_get (td_name d) = Some (Tool (td_name d)) /\
            td_required d ⊆ (td_properties d).*1)
         toolDefinitions.
Proof.
  split; [reflexivity|]. split.
  - apply (bool_decide_unpack _). vm_compute. exact I.
  - repeat (constructor;
            [split; [reflexivity
                    | apply (bool_decide_unpack _); vm_compute; exact I]|]).
    constructor.
Qed.

End SearchFacts.

(** ** processToolCall *)

Module MoreDispatcherFacts.

Lemma parsed_arguments_eq args parsedArgs :
  parsed_arguments args parsedArgs ->
  match args with
  | VString text => JSON_parse text
  | _ => Normal args
  end = Normal parsedArgs.
Proof. destruct args; simpl; intros H; by subst. Qed.

(** X15. For a name that is neither a key of the registry nor a key
    every object inherits, nothing is run, whatever the arguments: the
    world after the call is the world before.  When the arguments are a
    record, or text that parses, the answer is
    [{ error: "Unknown tool: <name>" }]; when they are text that does not
    parse, the error of [JSON.parse] is thrown, the name not having been
    looked at.  The name is a string, or a value that converts to one. *)
Theorem unknown_tool_is_an_error_result
    (h : host) (name : value) (key : jstring) (args : value) (w : World) :
  ToString h name = Normal key ->
  key ∉ tool_names ->
  key ∉ object_prototype_names ->
  (processToolCall h name args w).2 = w /\
  (forall parsedArgs,
     parsed_arguments args parsedArgs ->
     processToolCall h name args w
     = (Normal (error_result (js "Unknown tool: " ++ key)), w)) /\
  (forall text e,
     args = VString text -> JSON_parse text = Throw e ->
     processToolCall h name args w = (Throw e, w)).
Proof.
  intros Hn H1 H2.
  assert (forall parsedArgs,
            parsed_arguments args parsedArgs ->
            processToolCall h name args w
            = (Normal (error_result (js "Unknown tool: " ++ key)), w)) as Hp.
  { intros parsedArgs Hargs. unfold processToolCall.
    rewrite (parsed_arguments_eq _ _ Hargs), Hn.
    unfold toolImplementations_get. by rewrite decide_False, decide_False. }
  split; [|split; [exact Hp|]].
  - destruct args as [| | | |text| |];
      try (by rewrite (Hp _ eq_refl)).
    destruct (JSON_parse text) as [parsedArgs|e] eqn:E.
    + by rewrite (Hp parsedArgs E).
    + by rewrite (DispatcherFacts.processToolCall_parse_error _ _ _ _ _ E).
  - intros text e -> E.
    by apply DispatcherFacts.processToolCall_parse_error.
Qed.

Lemma unknown_tool_is_an_error_result_witness :
  processToolCall sample_host (VString (js "delete_file"))
                  (VString (jsq "{'file_path':'/a.txt'}")) (mkWorld ∅ [])
  = (Normal (error_result (js "Unknown tool: " ++ js "delete_file")),
     mkWorld ∅ []).
Proof.
  apply (proj1 (proj2 (unknown_tool_is_an_error_result sample_host
                         (VString (js "delete_file")) (js "delete_file")
                         (VString (jsq "{'file_path':'/a.txt'}"))
                         (mkWorld ∅ []) eq_refl
                         ltac:(apply (bool_decide_unpack _); vm_compute;
                               exact I)
                         ltac:(apply (bool_decide_unpack _); vm_compute;
                               exact I)))
               (VObject [(js "file_path", VString (js "/a.txt"))])).
  vm_compute. reflexivity.
Defined.

(** X16. [processToolCall] throws in two cases only, both before any
    tool runs: argument text that is not JSON, and a name that cannot be
    made a property key (an object with a property [toString] of its
    own, or an array that holds one); the world is then as it was.  In
    every other case it returns a result: what an implementation throws
    comes back as an error object. *)
Theorem dispatcher_returns_once_parsed
    (h : host) (name args : value) (w : World) :
  (forall parsedArgs,
     parsed_arguments args parsedArgs ->
     not_convertible name = false ->
     exists r w', processToolCall h name args w = (Normal r, w')) /\
  (forall e w',
     processToolCall h name args w = (Throw e, w') ->
     w' = w /\
     ((exists text, args = VString text /\ JSON_parse text = Throw e) \/
      (not_convertible name = true /\ e = TypeError_convert name))).
Proof.
  split.
  - intros parsedArgs Hargs Hn.
    apply (DispatcherFacts.processToolCall_catches h name (text_of h name)
             args parsedArgs w Hargs).
    unfold ToString. by rewrite Hn.
  - intros e w'. unfold processToolCall, ToString.
    destruct (match args with
              | VString text => JSON_parse text
              | _ => Normal args
              end) as [parsedArgs|e0] eqn:E.
    + destruct (not_convertible name) eqn:Hn.
      * intros [= <- <-]. split; [done|]. by right.
      * destruct (toolImplementations_get (text_of h name)) as [m|]; [|done].
        by destruct (call_member h m parsedArgs w) as [[r|e1] w1].
    + intros [= <- <-]. split; [done|]. left.
      destruct args; try done. by eauto.
Qed.

Lemma dispatcher_returns_once_parsed_witness :
  exists r w',
    processToolCall sample_host (VString (js "read_file")) VNull (mkWorld ∅ [])
    = (Normal r, w').
Proof.
  apply (proj1 (dispatcher_returns_once_parsed sample_host
                  (VString (js "read_file")) VNull (mkWorld ∅ []))
               VNull eq_refl eq_refl).
Defined.

(** X17. Arguments may come as JSON text or as the record itself: text
    that parses to a value which is not a string is handled exactly as
    that value is. *)
Theorem arguments_as_text_or_record
    (h : host) (name : value) (text : jstring) (parsedArgs : value)
    (w : World) :
  JSON_parse text = Normal parsedArgs ->
  (forall s, parsedArgs <> VString s) ->
  processToolCall h name (VString text) w
  = processToolCall h name parsedArgs w.
Proof.
  intros Hp Hs. unfold processToolCall. rewrite Hp.
  destruct parsedArgs; try done. by destruct (Hs s).
Qed.

Lemma arguments_as_text_or_record_witness :
  processToolCall sample_host (VString (js "execute_command"))
                  (VString (jsq "{'command':'sudo ls','timeout':500}"))
                  (mkWorld ∅ [])
  = processToolCall sample_host (VString (js "execute_command"))
                    (VObject [ (js "command", VString (js "sudo ls"));
                               (js "timeout", VNumber 500 0) ])
                    (mkWorld ∅ []).
Proof.
  apply (arguments_as_text_or_record sample_host
           (VString (js "execute_command"))
           (jsq "{'command':'sudo ls','timeout':500}")).
  - vm_compute. reflexivity.
  - intros s. discriminate.
Defined.

Lemma null_text_is_null h name w :
  processToolCall h name (VString (js "null")) w
  = processToolCall h name VNull w.
Proof. reflexivity. Qed.

(** X18. A registered tool called without arguments, or with [null],
    does not run: taking the parameters apart throws, the dispatcher
    turns that into an error object, and the world stays as it is. *)
Theorem missing_arguments_are_an_error_result
    (h : host) (key : jstring) (args : value) (w : World) :
  key ∈ tool_names ->
  args = VUndefined \/ args = VNull ->
  processToolCall h (VString key) args w
  = (Normal (error_result (js "Tool execution error: "
                           ++ message_of h (TypeError_destructure args))), w)
  /\ processToolCall h (VString key) (VString (js "null")) w
     = (Normal (error_result (js "Tool execution error: "
                              ++ message_of h (TypeError_destructure VNull))),
        w).
Proof.
  intros Hkey Hargs.
  assert (forall a, a = VUndefined \/ a = VNull ->
                    processToolCall h (VString key) a w
                    = (Normal (error_result
                                 (js "Tool execution error: "
                                  ++ message_of h (TypeError_destructure a))),
                       w)) as H.
  { intros a Ha. unfold processToolCall.
    assert (match a with
            | VString text => JSON_parse text
            | _ => Normal a
            end = Normal a) as -> by (by destruct Ha as [->| ->]).
    rewrite DispatcherFacts.ToString_string. unfold toolImplementations_get.
    rewrite decide_True by done. cbn [call_member]. unfold call_tool.
    by destruct Ha as [->| ->]. }
  split; [by apply H|].
  rewrite (null_text_is_null h (VString key) w).
  apply H. by right.
Qed.

Lemma missing_arguments_are_an_error_result_witness :
  processToolCall sample_host (VString (js "edit_file")) VUndefined
                  (mkWorld ∅ [])
  = (Normal (error_result (js "Tool execution error: "
                           ++ message_of sample_host
                                (TypeError_destructure VUndefined))),
     mkWorld ∅ [])
  /\ processToolCall sample_host (VString (js "edit_file"))
                     (VString (js "null")) (mkWorld ∅ [])
     = (Normal (error_result (js "Tool execution error: "
                              ++ message_of sample_host
                                   (TypeError_destructure VNull))),
        mkWorld ∅ []).
Proof.
  apply (missing_arguments_are_an_error_result sample_host (js "edit_file")
           VUndefined (mkWorld ∅ [])).
  - apply (bool_decide_unpack _). vm_compute. exact I.
  - by left.
Defined.

End MoreDispatcherFacts.

(** ** The stream decoder, once more *)

Module MoreDecoderFacts.

Lemma delta_content_nonempty data content :
  delta_content data = Normal (Some content) -> content <> [].
Proof.
  unfold delta_content.
  destruct (JSON_parse data) as [parsed|]; [|done]. cbn [bind].
  destruct (get parsed (js "choices")) as [choices|]; [|done]. cbn [bind].
  destruct (truthy choices); [|done].
  destruct (get choices (js "0")) as [choice|]; [|done]. cbn [bind].
  destruct (get choice (js "delta")) as [delta|]; [|done]. cbn [bind].
  destruct (get delta (js "content")) as [c|]; [|done]. cbn [bind].
  destruct (truthy c) eqn:Et; [|done].
  destruct c; try done. intros [= <-]. by destruct s.
Qed.

Lemma decode_line_writes acc line :
  Forall (fun t => t <> []) acc.1 ->
  Forall (fun t => t <> []) (decode_line acc line).1.
Proof.
  intros H. unfold decode_line.
  destruct (startsWith (js "data:") line); [|done].
  destruct (decide _); [done|].
  destruct (delta_content _) as [[content|]|e] eqn:E; try done.
  cbn [fst]. apply Forall_app. split; [done|].
  constructor; [|done]. by apply delta_content_nonempty in E.
Qed.

(** X19. However the stream is cut into reads, the text the decoder
    returns is the increments it wrote, one after the other, and it never
    writes an empty increment. *)
Theorem decoder_returns_what_it_wrote (chunks : list jstring) :
  (decode chunks).2 = Normal (concat (decode chunks).1) /\
  Forall (fun t => t <> []) (decode chunks).1.
Proof.
  split; [apply DecoderFacts.decode_accumulates|].
  unfold decode. rewrite DecoderFacts.read_loop_values. cbn [fst].
  assert (forall lines acc,
            Forall (fun t => t <> []) acc.1 ->
            Forall (fun t => t <> []) (fold_left decode_line lines acc).1)
    as Hlines.
  { induction lines as [|l lines IH]; intros acc H; [done|].
    apply IH. by apply decode_line_writes. }
  assert (forall cs acc,
            Forall (fun t => t <> []) acc.1 ->
            Forall (fun t => t <> []) (fold_left decode_chunk cs acc).1)
    as Hchunks.
  { induction cs as [|c cs IH]; intros acc H; [done|].
    apply IH. by apply Hlines. }
  apply Hchunks. constructor.
Qed.

(** X20. Frames the decoder has no use for are passed over and do not
    disturb the others: a frame without the [data:] prefix (a comment, an
    event name) and a frame whose payload is not JSON can be put anywhere
    between whole frames without changing what is written and
    returned. *)
Theorem decoder_passes_over_other_frames
    (before after : list jstring) (f : jstring) :
  Forall (fun l => 10 ∉ l) before ->
  Forall (fun l => 10 ∉ l) after ->
  10 ∉ f ->
  startsWith (js "data:") f = false \/
  (exists e, JSON_parse (trim (slice_from 5 f)) = Throw e) ->
  decode [stream_of (before ++ f :: after)]
  = decode [stream_of (before ++ after)].
Proof.
  intros Hb Ha Hf Hskip.
  assert (forall acc, decode_line acc f = acc) as Hline.
  { intros acc. unfold decode_line.
    destruct Hskip as [->|[e He]]; [done|].
    destruct (startsWith (js "data:") f); [|done].
    destruct (decide _); [done|].
    unfold delta_content. by rewrite He. }
  unfold decode. rewrite !DecoderFacts.read_loop_values. cbn [fold_left].
  rewrite !DecoderFacts.decode_chunk_frames.
  - rewrite !fold_left_app. cbn [fold_left]. by rewrite Hline.
  - by apply Forall_app.
  - apply Forall_app. split; [done|]. by constructor.
Qed.

Lemma decoder_passes_over_other_frames_witness :
  decode [stream_of ([frame_Hel] ++ js ": keep-alive" :: [frame_lo])]
  = decode [stream_of ([frame_Hel] ++ [frame_lo])].
Proof.
  apply (decoder_passes_over_other_frames [frame_Hel] [frame_lo]
           (js ": keep-alive")).
  - repeat constructor. apply (bool_decide_unpack _). vm_compute. exact I.
  - repeat constructor. apply (bool_decide_unpack _). vm_compute. exact I.
  - apply (bool_decide_unpack _). vm_compute. exact I.
  - left. reflexivity.
Defined.

End MoreDecoderFacts.

(** ** callGeminiAPI, the line handler and start-up *)

Module MoreDriverFacts.

Section Facts.
Variable h : host.
Variable args : argv.

(** *** The history only grows *)

Lemma tool_chain_prefix stream ms new final :
  tool_chain h stream ms new final -> ms `prefix_of` final.
Proof.
  induction 1 as [stream ms|ms content fc r w w' later final _ _ _ IH].
  - done.
  - etrans; [|exact IH]. by apply prefix_app_r.
Qed.

Lemma callGeminiAPI_prefix script so st :
  messages st `prefix_of` messages (callGeminiAPI h args script so st).1.2.
Proof.
  destruct (OrchestratorFacts.callGeminiAPI_chain h args script so st)
    as (new & _ & Hch).
  by eapply tool_chain_prefix.
Qed.

Lemma on_line_prefix line script st :
  messages st `prefix_of` messages (on_line h args line script st).1.2.
Proof.
  unfold on_line. destruct (toLowerCase_is_exit (trim line)); [done|].
  destruct (trim line) as [|c userInput]; [done|].
  pose proof (callGeminiAPI_prefix script None
                (push (user_message (c :: userInput)) st)) as H.
  destruct (callGeminiAPI h args script None _) as [[[response|] st'] rest];
    cbn [fst snd] in *.
  - assert (messages st `prefix_of` messages st') as H'.
    { etrans; [|exact H]. by apply prefix_app_r. }
    destruct (truthy response); [|done].
    cbn [print push messages]. by apply prefix_app_r.
  - etrans; [|exact H]. by apply prefix_app_r.
Qed.

(** X21. The conversation history is only ever appended to: after any
    number of lines, whatever the remote end answers, the history before
    is the beginning of the history after; and the same holds across one
    call of [callGeminiAPI]. *)
Theorem history_only_grows
    (lines : list jstring) (script : list fetch_result)
    (so : option bool) (st : state) :
  messages st `prefix_of` messages (session h args lines script st).1.2 /\
  messages st `prefix_of` messages (callGeminiAPI h args script so st).1.2.
Proof.
  split; [|apply callGeminiAPI_prefix].
  revert script st; induction lines as [|line lines IH]; intros script st.
  - done.
  - cbn [session].
    pose proof (on_line_prefix line script st) as H.
    destruct (on_line h args line script st) as [[[| |] st'] rest];
      cbn [fst snd] in *; [|done|done].
    etrans; [exact H | apply IH].
Qed.

(** *** Streaming *)

Lemma callGeminiAPI_streamed reply script so st :
  default (argv_stream args) so = true ->
  exists v st',
    callGeminiAPI h args (reply :: script) so st = (Answered v, st', script) /\
    world st' = world st /\ messages st' = messages st.
Proof.
  intros Hs. cbn [callGeminiAPI]. rewrite Hs.
  destruct reply as [e|r]; [by eauto|].
  destruct (ok r); cbn [negb]; [|by eauto].
  destruct (body r) as [[|reads]|]; [by eauto| |by eauto].
  destruct (read_loop reads ([], [])) as [written [text|e]]; by eauto.
Qed.

Lemma on_line_streamed line script st :
  argv_stream args = true ->
  world (on_line h args line script st).1.2 = world st /\
  (Forall (fun m => msg_role m <> function) (messages st) ->
   Forall (fun m => msg_role m <> function)
          (messages (on_line h args line script st).1.2)).
Proof.
  intros Hs. unfold on_line. destruct (toLowerCase_is_exit (trim line)); [done|].
  destruct (trim line) as [|c userInput]; [done|].
  destruct script as [|reply script].
  - cbn [callGeminiAPI fst snd sent push world messages]. split; [done|].
    intros H. apply Forall_app. split; [done|]. by repeat constructor.
  - destruct (callGeminiAPI_streamed reply script None
                (push (user_message (c :: userInput)) st) Hs)
      as (v & st' & -> & Hw & Hm).
    cbn [fst snd]. split.
    + by destruct (truthy v).
    + intros H.
      assert (Forall (fun m => msg_role m <> function) (messages st')) as H'.
      { rewrite Hm. cbn [push messages]. apply Forall_app.
        split; [done|]. by repeat constructor. }
      destruct (truthy v); [|done]. cbn [print push messages].
      apply Forall_app. split; [done|]. by repeat constructor.
Qed.

(** X22. With streaming on, which is the default, a session runs no
    tool: whatever the remote end sends, tool-call requests included, the
    world after any number of lines is the world before, and no
    tool-result message enters a history that had none. *)
Theorem streaming_session_runs_no_tool
    (lines : list jstring) (script : list fetch_result) (st : state) :
  argv_stream args = true ->
  world (session h args lines script st).1.2 = world st /\
  (Forall (fun m => msg_role m <> function) (messages st) ->
   Forall (fun m => msg_role m <> function)
          (messages (session h args lines script st).1.2)).
Proof.
  intros Hs. revert script st; induction lines as [|line lines IH];
    intros script st; [done|].
  cbn [session].
  pose proof (on_line_streamed line script st Hs) as [Hw Hm].
  destruct (on_line h args line script st) as [[[| |] st'] rest];
    cbn [fst snd] in *; [|done|done].
  destruct (IH rest st') as [Hw' Hm']. split; [congruence | auto].
Qed.

(** X23. With the body that node-fetch gives, a Node.js stream without
    [getReader], a streamed turn decodes nothing: the call of
    [response.body.getReader()] throws, one error line is printed, nothing
    is written to the standard output, no tool is run, and the turn ends
    at the prompt with the user message in the history and no answer
    after it. *)
Theorem streamed_turn
    (line : jstring) (r : response) (script : list fetch_result)
    (st : state) :
  argv_stream args = true ->
  trim line <> [] ->
  toLowerCase_is_exit (trim line) = false ->
  ok r = true ->
  body r = Some NodeStream ->
  on_line h args line (FetchResponse r :: script) st
  = (Prompted,
     mkState (messages st ++ [user_message (trim line)])
             (world st)
             (console st
              ++ [ ConsoleError (Some red)
                     (js "Error: "
                      ++ message_of h
                           (TypeError_not_callable
                              (js "response.body.getReader")));
                   Prompt ])
             (requests st
              ++ [mkRequest (messages st ++ [user_message (trim line)])
                            true]),
     script).
Proof.
  intros Hs Hne Hexit Hok Hb. unfold on_line. rewrite Hexit.
  destruct (trim line) as [|c userInput] eqn:E; [done|].
  cbn [callGeminiAPI]. rewrite Hs, Hok, Hb. cbn [default negb truthy].
  unfold print, push, sent. cbn. by rewrite <- app_assoc.
Qed.

(** *** Lines that stay local *)

Lemma trimStart_app_white a s :
  forallb is_white_space a = true -> trimStart (a ++ s) = trimStart s.
Proof.
  induction a as [|c a IH]; [done|]. cbn [forallb app trimStart].
  intros H. apply andb_true_iff in H as [-> H]. by apply IH.
Qed.

Lemma trim_padded a u b c u' d :
  forallb is_white_space a = true -> forallb is_white_space b = true ->
  u = c :: u' -> is_white_space c = false ->
  last u = Some d -> is_white_space d = false ->
  trim (a ++ u ++ b) = u.
Proof.
  intros Ha Hb Hu Hc Hlast Hd. unfold trim, trimEnd.
  rewrite trimStart_app_white by done.
  assert (trimStart (u ++ b) = u ++ b) as ->.
  { rewrite Hu. cbn [app trimStart]. by rewrite Hc. }
  rewrite rev_app_distr, trimStart_app_white.
  - destruct (rev u) as [|x xs] eqn:Er.
    + apply (f_equal (@rev N)) in Er. rewrite rev_involutive in Er.
      rewrite Er in Hu. discriminate Hu.
    + assert (x = d) as ->.
      { apply (f_equal (@rev N)) in Er. rewrite rev_involutive in Er.
        rewrite Er in Hlast. cbn [rev] in Hlast.
        rewrite last_snoc in Hlast. congruence. }
      cbn [trimStart]. rewrite Hd. rewrite <- Er. apply rev_involutive.
  - rewrite forallb_forall in *. intros x Hx. apply Hb.
    by apply in_rev.
Qed.

Lemma exit_letters u :
  toLowerCase_is_exit u = true ->
  exists c1 c2 c3 c4,
    u = [c1; c2; c3; c4] /\ is_white_space c1 = false /\
    is_white_space c4 = false.
Proof.
  unfold toLowerCase_is_exit. intros H. apply bool_decide_eq_true in H.
  destruct u as [|c1 [|c2 [|c3 [|c4 [|c5 u]]]]]; try discriminate H.
  exists c1, c2, c3, c4. split; [done|].
  cbn [List.map] in H. injection H as H1 _ _ H4.
  split.
  - destruct ((65 <=? c1) && (c1 <=? 90)).
    + assert (c1 = 69) as -> by lia. reflexivity.
    + by subst c1.
  - destruct ((65 <=? c4) && (c4 <=? 90)).
    + assert (c4 = 84) as -> by lia. reflexivity.
    + by subst c4.
Qed.

(** X24. Two kinds of lines never reach the remote end.  The word
    [exit], in any mix of upper and lower case and with any white space
    around it, ends the session with status 0 after a good-bye; a line of
    white space only puts the prompt up again.  In both cases the history
    and the list of remote calls are left as they were. *)
Theorem lines_that_stay_local
    (before after word : jstring) (script : list fetch_result) (st : state) :
  forallb is_white_space before = true ->
  forallb is_white_space after = true ->
  (toLowerCase_is_exit word = true ->
   on_line h args (before ++ word ++ after) script st
   = (Exit 0,
      print [ConsoleLog (Some yellow) (VString (js "Goodbye!"))] st,
      script)) /\
  on_line h args (before ++ after) script st
  = (Prompted, print [Prompt] st, script).
Proof.
  intros Hb Ha. split.
  - intros Hw. destruct (exit_letters word Hw) as (c1 & c2 & c3 & c4 & Hu & H1 & H4).
    unfold on_line.
    rewrite (trim_padded before word after c1 [c2; c3; c4] c4); try done.
    + by rewrite Hw.
    + by rewrite Hu.
  - unfold on_line, trim, trimEnd.
    rewrite trimStart_app_white by done.
    rewrite (SearchFacts.trimStart_white after Ha). reflexivity.
Qed.

(** *** Turns that fail *)

(** X25. When the remote call of a turn fails, by a rejected request or
    by a status that is not a success, one error line is printed, no tool
    is run, and the turn ends at the prompt with the user message in the
    history and no answer after it. *)
Theorem failed_turn_keeps_the_question
    (line : jstring) (reply : fetch_result) (script : list fetch_result)
    (st : state) :
  trim line <> [] ->
  toLowerCase_is_exit (trim line) = false ->
  transport_failure reply ->
  on_line h args line (reply :: script) st
  = (Prompted,
     mkState (messages st ++ [user_message (trim line)])
             (world st)
             (console st
              ++ [ ConsoleError (Some red)
                     (js "Error: "
                      ++ message_of h
                           match reply with
                           | FetchRejected e => e
                           | FetchResponse r => api_error h r
                           end);
                   Prompt ])
             (requests st
              ++ [mkRequest (messages st ++ [user_message (trim line)])
                            (argv_stream args)]),
     script).
Proof.
  intros Hne Hexit Hfail. unfold on_line. rewrite Hexit.
  destruct (trim line) as [|c userInput] eqn:E; [done|].
  cbn [callGeminiAPI]. destruct reply as [e|r].
  - cbn [truthy]. unfold print, push, sent. cbn.
    by rewrite <- app_assoc.
  - simpl in Hfail. rewrite Hfail. cbn [negb truthy].
    unfold print, push, sent. cbn. by rewrite <- app_assoc.
Qed.

(** *** Tool calls that go wrong *)

(** X26. A request for a tool that is not registered, with arguments
    that are a record or text that parses, does not end the turn: the
    error object of the dispatcher is the tool result, the two messages
    are appended as for any tool, the world is untouched, and the next
    remote call is made on the longer history. *)
Theorem unknown_tool_goes_back_to_the_model
    (r : response) (data functionCall content parsedArgs : value)
    (name : jstring)
    (script : list fetch_result) (so : option bool) (st : state) :
  default (argv_stream args) so = false ->
  tool_call_response r data functionCall ->
  message_content data = Normal content ->
  prop functionCall (js "name") = VString name ->
  name ∉ tool_names -> name ∉ object_prototype_names ->
  parsed_arguments (prop functionCall (js "arguments")) parsedArgs ->
  callGeminiAPI h args (FetchResponse r :: script) so st
  = callGeminiAPI h args script (Some false)
      (after_tool h false content functionCall
         (error_result (js "Unknown tool: " ++ name)) (world st) st) /\
  messages (after_tool h false content functionCall
              (error_result (js "Unknown tool: " ++ name)) (world st) st)
  = messages st
    ++ [ mkMessage assistant content (Some functionCall) None;
         mkMessage function
           (JSON_stringify h (error_result (js "Unknown tool: " ++ name))
                           false)
           None (Some (VString name)) ] /\
  world (after_tool h false content functionCall
           (error_result (js "Unknown tool: " ++ name)) (world st) st)
  = world st.
Proof.
  intros Hs Hr Hc Hname H1 H2 Hargs. split; [|split; [|done]].
  - apply (OrchestratorFacts.callGeminiAPI_tool h args r data); try done.
    rewrite Hname.
    by apply (DispatcherFacts.processToolCall_unknown h name _ parsedArgs).
  - cbn [after_tool push print with_world sent messages].
    unfold tool_call_message, tool_result_message. rewrite Hname.
    by rewrite <- app_assoc.
Qed.

(** X27. A tool call, of a tool named by a string, whose argument text
    is not JSON ends the turn: the error of [JSON.parse] is printed after
    the name of the function, the call resolves to [null], no tool is
    run, no message is appended and no further remote call is made. *)
Theorem malformed_arguments_end_the_turn
    (r : response) (data functionCall : value) (name text : jstring)
    (e : exn)
    (script : list fetch_result) (so : option bool) (st : state) :
  default (argv_stream args) so = false ->
  tool_call_response r data functionCall ->
  prop functionCall (js "name") = VString name ->
  prop functionCall (js "arguments") = VString text ->
  JSON_parse text = Throw e ->
  callGeminiAPI h args (FetchResponse r :: script) so st
  = (Answered VNull,
     mkState (messages st) (world st)
             (console st
              ++ [ ConsoleLog (Some blue)
                     (VString (js "Function call: " ++ name));
                   ConsoleError (Some red) (js "Error: " ++ message_of h e) ])
             (requests st ++ [mkRequest (messages st) false]),
     script).
Proof.
  intros Hs (Hok & Hj & Hf & Ht) Hname Hargs Hp.
  cbn [callGeminiAPI]. rewrite Hs, Hok, Hj, Hf, Ht, Hname.
  rewrite DispatcherFacts.ToString_string.
  cbn [negb world print with_world sent]. rewrite Hargs.
  rewrite (DispatcherFacts.processToolCall_parse_error _ _ _ _ _ Hp).
  unfold print, with_world. cbn. by rewrite <- app_assoc.
Qed.

(** X30. A tool call whose name cannot be made a string (an object with
    a property [toString] of its own) ends the turn before the dispatcher
    is reached: the line that announces the call is not printed, the
    error of the conversion is, the call resolves to [null], no tool is
    run, no message is appended and no further remote call is made. *)
Theorem unconvertible_name_ends_the_turn
    (r : response) (data functionCall : value)
    (script : list fetch_result) (so : option bool) (st : state) :
  default (argv_stream args) so = false ->
  tool_call_response r data functionCall ->
  not_convertible (prop functionCall (js "name")) = true ->
  callGeminiAPI h args (FetchResponse r :: script) so st
  = (Answered VNull,
     mkState (messages st) (world st)
             (console st
              ++ [ ConsoleError (Some red)
                     (js "Error: "
                      ++ message_of h
                           (TypeError_convert
                              (prop functionCall (js "name")))) ])
             (requests st ++ [mkRequest (messages st) false]),
     script).
Proof.
  intros Hs (Hok & Hj & Hf & Ht) Hn.
  cbn [callGeminiAPI]. rewrite Hs, Hok, Hj, Hf, Ht.
  unfold ToString. rewrite Hn. reflexivity.
Qed.

(** *** One-shot analysis of a file *)

(** X28. The one-shot analysis of a file argument.  A path at which
    nothing exists ends the program with status 1 before any remote call;
    for a regular file the remote call is made on a single user message
    that holds the resolved path and the content, and when that call
    fails the program still ends with status 0, no other call being
    made. *)
Theorem file_argument_runs_once
    (c : N) (file : jstring) (healthData v : value)
    (script : list fetch_result) (st : state) :
  argv_file args = Some (c :: file) ->
  get healthData (js "api_initialized") = Normal v ->
  let filePath := path_resolve h (c :: file) in
  (fs (world st) !! filePath = None ->
   (main h args (ProbeResponse (Normal healthData)) script st).1.1 = Exited 1 /\
   requests (main h args (ProbeResponse (Normal healthData)) script st).1.2
   = requests st) /\
  (forall content reply script',
     fs (world st) !! filePath = Some (File content) ->
     script = reply :: script' ->
     transport_failure reply ->
     (main h args (ProbeResponse (Normal healthData)) script st).1.1 = Exited 0 /\
     requests (main h args (ProbeResponse (Normal healthData)) script st).1.2
     = requests st
       ++ [mkRequest
             [user_message
                (js "I'm providing this file content for analysis: "
                 ++ filePath ++ [10; 10] ++ content)]
             (argv_stream args)]).
Proof.
  intros Hfile Hg filePath. split.
  - intros Hnone. unfold main, startCLI. cbn [bind]. rewrite Hg, Hfile.
    unfold process_file. fold filePath. cbn [print world].
    destruct (truthy v); cbn [negb print world]; rewrite Hnone; done.
  - intros content reply script' Hsome -> Hfail.
    unfold main, startCLI. cbn [bind]. rewrite Hg, Hfile.
    unfold process_file. fold filePath.
    assert (forall st0 : state,
              exists st1,
                callGeminiAPI h args (reply :: script') None st0
                = (Answered VNull, st1, script') /\
                requests st1
                = requests st0
                  ++ [mkRequest (messages st0) (argv_stream args)]) as Hcall.
    { intros st0. cbn [callGeminiAPI]. destruct reply as [e|r].
      - by eauto.
      - simpl in Hfail. rewrite Hfail. cbn [negb]. by eauto. }
    destruct (truthy v); cbn [negb print world]; rewrite Hsome;
      match goal with
      | |- context [callGeminiAPI h args (reply :: script') None ?s] =>
          destruct (Hcall s) as (st1 & -> & Hq)
      end; cbn [fst snd]; split; try done; rewrite Hq; done.
Qed.

End Facts.

Lemma streaming_session_runs_no_tool_witness :
  world (session sample_host sample_argv [js "read it"]
           [FetchResponse read_file_response] initial_state).1.2
  = world initial_state /\
  (Forall (fun m => msg_role m <> function) (messages initial_state) ->
   Forall (fun m => msg_role m <> function)
          (messages (session sample_host sample_argv [js "read it"]
                       [FetchResponse read_file_response] initial_state).1.2)).
Proof.
  apply (streaming_session_runs_no_tool sample_host sample_argv
           [js "read it"] [FetchResponse read_file_response] initial_state).
  reflexivity.
Defined.

Lemma streamed_turn_witness :
  on_line sample_host sample_argv (js " hi ")
          [FetchResponse (text_response (js "Hello"))] initial_state
  = (Prompted,
     mkState (messages initial_state ++ [user_message (trim (js " hi "))])
             (world initial_state)
             (console initial_state
              ++ [ ConsoleError (Some red)
                     (js "Error: "
                      ++ message_of sample_host
                           (TypeError_not_callable
                              (js "response.body.getReader")));
                   Prompt ])
             (requests initial_state
              ++ [mkRequest (messages initial_state
                             ++ [user_message (trim (js " hi "))])
                            true]),
     []).
Proof.
  apply (streamed_turn sample_host sample_argv (js " hi ")
           (text_response (js "Hello")) [] initial_state).
  - reflexivity.
  - vm_compute. discriminate.
  - reflexivity.
  - reflexivity.
  - reflexivity.
Defined.

Lemma lines_that_stay_local_witness :
  on_line sample_host sample_argv (js "  " ++ js "Exit" ++ js " ") []
          initial_state
  = (Exit 0,
     print [ConsoleLog (Some yellow) (VString (js "Goodbye!"))] initial_state,
     []).
Proof.
  apply (proj1 (lines_that_stay_local sample_host sample_argv (js "  ")
                  (js " ") (js "Exit") [] initial_state eq_refl eq_refl)).
  reflexivity.
Defined.

Lemma failed_turn_keeps_the_question_witness :
  on_line sample_host sample_argv (js "hello")
          [FetchRejected (HostError (js "ECONNREFUSED"))] initial_state
  = (Prompted,
     mkState (messages initial_state ++ [user_message (trim (js "hello"))])
             (world initial_state)
             (console initial_state
              ++ [ ConsoleError (Some red)
                     (js "Error: "
                      ++ message_of sample_host
                           (HostError (js "ECONNREFUSED")));
                   Prompt ])
             (requests initial_state
              ++ [mkRequest (messages initial_state
                             ++ [user_message (trim (js "hello"))])
                            (argv_stream sample_argv)]),
     []).
Proof.
  apply (failed_turn_keeps_the_question sample_host sample_argv (js "hello")
           (FetchRejected (HostError (js "ECONNREFUSED"))) [] initial_state).
  - vm_compute. discriminate.
  - reflexivity.
  - exact I.
Defined.

Lemma unknown_tool_goes_back_to_the_model_witness :
  callGeminiAPI sample_host sample_argv_no_stream
    [FetchResponse (call_response (js "delete_file") (VString (js "{}")))]
    None initial_state
  = callGeminiAPI sample_host sample_argv_no_stream [] (Some false)
      (after_tool sample_host false VNull
         (VObject [ (js "name", VString (js "delete_file"));
                    (js "arguments", VString (js "{}")) ])
         (error_result (js "Unknown tool: " ++ js "delete_file"))
         (world initial_state) initial_state).
Proof.
  apply (unknown_tool_goes_back_to_the_model sample_host
           sample_argv_no_stream
           (call_response (js "delete_file") (VString (js "{}")))
           (VObject
              [ (js "choices",
                 VArray [ VObject
                            [ (js "message",
                               VObject
                                 [ (js "content", VNull);
                                   (js "function_call",
                                    VObject
                                      [ (js "name", VString (js "delete_file"));
                                        (js "arguments", VString (js "{}")) ])
                                 ]) ] ]) ])
           (VObject [ (js "name", VString (js "delete_file"));
                      (js "arguments", VString (js "{}")) ])
           VNull (VObject []) (js "delete_file") [] None initial_state).
  - reflexivity.
  - repeat split; reflexivity.
  - reflexivity.
  - reflexivity.
  - apply (bool_decide_unpack _). vm_compute. exact I.
  - apply (bool_decide_unpack _). vm_compute. exact I.
  - vm_compute. reflexivity.
Defined.

Lemma malformed_arguments_end_the_turn_witness :
  callGeminiAPI sample_host sample_argv_no_stream
    [FetchResponse (call_response (js "read_file") (VString (js "{")))] None
    initial_state
  = (Answered VNull,
     mkState (messages initial_state) (world initial_state)
             (console initial_state
              ++ [ ConsoleLog (Some blue)
                     (VString (js "Function call: " ++ js "read_file"));
                   ConsoleError (Some red)
                     (js "Error: "
                      ++ message_of sample_host (SyntaxError (js "{"))) ])
             (requests initial_state
              ++ [mkRequest (messages initial_state) false]),
     []).
Proof.
  apply (malformed_arguments_end_the_turn sample_host sample_argv_no_stream
           (call_response (js "read_file") (VString (js "{")))
           (VObject
              [ (js "choices",
                 VArray [ VObject
                            [ (js "message",
                               VObject
                                 [ (js "content", VNull);
                                   (js "function_call",
                                    VObject
                                      [ (js "name", VString (js "read_file"));
                                        (js "arguments", VString (js "{")) ])
                                 ]) ] ]) ])
           (VObject [ (js "name", VString (js "read_file"));
                      (js "arguments", VString (js "{")) ])
           (js "read_file") (js "{") (SyntaxError (js "{")) [] None
           initial_state).
  - reflexivity.
  - repeat split; reflexivity.
  - reflexivity.
  - reflexivity.
  - vm_compute. reflexivity.
Defined.

Lemma unconvertible_name_ends_the_turn_witness :
  callGeminiAPI sample_host sample_argv_no_stream
    [FetchResponse
       (mkResponse true (js "OK")
          (JSON_parse
             (jsq "{'choices':[{'message':{'function_call':{'name':{'toString':1},'arguments':'{}'}}}]}"))
          (Some NodeStream))]
    None initial_state
  = (Answered VNull,
     mkState (messages initial_state) (world initial_state)
             (console initial_state
              ++ [ ConsoleError (Some red)
                     (js "Error: "
                      ++ message_of sample_host
                           (TypeError_convert
                              (prop (VObject
                                       [ (js "name",
                                          VObject [(js "toString",
                                                    VNumber 1 0)]);
                                         (js "arguments",
                                          VString (js "{}")) ])
                                    (js "name")))) ])
             (requests initial_state
              ++ [mkRequest (messages initial_state) false]),
     []).
Proof.
  apply (unconvertible_name_ends_the_turn sample_host sample_argv_no_stream
           (mkResponse true (js "OK")
              (JSON_parse
                 (jsq "{'choices':[{'message':{'function_call':{'name':{'toString':1},'arguments':'{}'}}}]}"))
              (Some NodeStream))
           (VObject
              [ (js "choices",
                 VArray [ VObject
                            [ (js "message",
                               VObject
                                 [ (js "function_call",
                                    VObject
                                      [ (js "name",
                                         VObject [(js "toString",
                                                   VNumber 1 0)]);
                                        (js "arguments",
                                         VString (js "{}")) ]) ]) ] ]) ])
           (VObject [ (js "name", VObject [(js "toString", VNumber 1 0)]);
                      (js "arguments", VString (js "{}")) ])
           [] None initial_state).
  - reflexivity.
  - repeat split; vm_compute; reflexivity.
  - reflexivity.
Defined.

Lemma file_argument_runs_once_witness :
  (main sample_host
        (mkArgv (js "gemini-pro") true (Some (js "/none.txt"))
                (js "http://localhost:8000"))
        (ProbeResponse
           (Normal (VObject [(js "api_initialized", VBool true)])))
        [] initial_state).1.1 = Exited 1 /\
  requests
    (main sample_host
          (mkArgv (js "gemini-pro") true (Some (js "/none.txt"))
                  (js "http://localhost:8000"))
          (ProbeResponse
             (Normal (VObject [(js "api_initialized", VBool true)])))
          [] initial_state).1.2
  = requests initial_state.
Proof.
  apply (proj1 (file_argument_runs_once sample_host
                  (mkArgv (js "gemini-pro") true (Some (js "/none.txt"))
                          (js "http://localhost:8000"))
                  47 (js "none.txt")
                  (VObject [(js "api_initialized", VBool true)]) (VBool true)
                  [] initial_state eq_refl eq_refl)).
  reflexivity.
Defined.

End MoreDriverFacts.
